(** * Roblox status API (server.js): a shallow embedding and its properties

    The development follows [src/server.js]: the helpers [getHeaders],
    [getUserIds] and [getGameInfo], and the handler of [POST /api/status].

    Conventions of the embedding.
    - A JavaScript string is a [string]; each character is one code unit
      below 256 (the Latin-1 range, which [trim] and [toLowerCase] never
      leave).
    - A number is an integer [Z] (user, place and universe identifiers are
      integers far below 2^53).
    - The three upstream HTTP services are a parameter [upstream]; every
      request the server sends is appended to a log, and the answer may
      depend on the log so far.  An answer [None] is a call that throws
      (network error or non-2xx status); the [try]/[catch] blocks of the
      source are the matches on that option.  The username and the place
      service have their bodies read inside the [try], so for them [None]
      also stands for a body on which the first property access throws (no
      [data] array, an empty body); the presence body is read after the
      [try], and for it [None] is a call that throws and nothing else.
    - In the modules [Net] and [Server] the bodies of successful answers
      are typed after the upstream contract: users carry a string [name]
      and a numeric [id], presences a numeric [userId] and
      [userPresenceType].  The module [Raw] runs the same code on bodies
      that break the contract: a user entry whose name is not a string
      stops the [forEach] of [getUserIds] half-way, and a presence body
      without an array of objects makes the handler throw, since it is
      read outside the [try].  On bodies that respect the contract the two
      agree ([RawFacts.api_status_agrees]). *)

From Stdlib Require Import ZArith String Ascii List Bool Lia DecimalString.
From stdpp Require Import base list strings gmap.

Open Scope string_scope.
Open Scope list_scope.

(** ** JavaScript values *)

Module Js.

(** The values an optional field of a JSON body can hold: absent, [null],
    a number or a string. *)
Inductive jsval : Type :=
  | JUndefined
  | JNull
  | JNum (n : Z)
  | JStr (s : string).

(** ToBoolean. *)
Definition truthy (v : jsval) : bool :=
  match v with
  | JUndefined | JNull => false
  | JNum n => negb (Z.eqb n 0)
  | JStr s => negb (String.eqb s "")
  end.

(** [a || b] *)
Definition or_else (a b : jsval) : jsval := if truthy a then a else b.

(** *** String.prototype.trim and String.prototype.toLowerCase *)

(** WhiteSpace and LineTerminator code units below 256: TAB, LF, VT, FF, CR,
    SPACE and NO-BREAK SPACE. *)
Definition is_space (c : ascii) : bool :=
  let n := nat_of_ascii c in
  ((9 <=? n)%nat && (n <=? 13)%nat) || (n =? 32)%nat || (n =? 160)%nat.

Fixpoint trimStart (s : string) : string :=
  match s with
  | EmptyString => EmptyString
  | String c r => if is_space c then trimStart r else s
  end.

Fixpoint trimEnd (s : string) : string :=
  match s with
  | EmptyString => EmptyString
  | String c r =>
      match trimEnd r with
      | EmptyString => if is_space c then EmptyString else String c EmptyString
      | r' => String c r'
      end
  end.

Definition trim (s : string) : string := trimEnd (trimStart s).

(** Lower-case mapping of one code unit below 256: A-Z, and the Latin-1
    capitals U+00C0-U+00DE except the multiplication sign U+00D7. *)
Definition lower_char (c : ascii) : ascii :=
  let n := nat_of_ascii c in
  if ((65 <=? n)%nat && (n <=? 90)%nat)
     || ((192 <=? n)%nat && (n <=? 222)%nat && negb (n =? 215)%nat)
  then ascii_of_nat (n + 32) else c.

Fixpoint toLowerCase (s : string) : string :=
  match s with
  | EmptyString => EmptyString
  | String c r => String (lower_char c) (toLowerCase r)
  end.

(** A string made of white space only (the empty string included). *)
Fixpoint whitespace_only (s : string) : bool :=
  match s with
  | EmptyString => true
  | String c r => is_space c && whitespace_only r
  end.

(** *** Plain objects used as string-keyed maps *)

(** The names every object literal inherits from [Object.prototype]. *)
Definition object_prototype_members : list string :=
  [ "constructor"; "__defineGetter__"; "__defineSetter__"; "hasOwnProperty";
    "__lookupGetter__"; "__lookupSetter__"; "isPrototypeOf";
    "propertyIsEnumerable"; "toString"; "valueOf"; "__proto__";
    "toLocaleString" ].

Definition inherited (k : string) : bool :=
  existsb (String.eqb k) object_prototype_members.

(** Array-index keys: canonical decimal numerals of at most 2^32 - 2.  Own
    keys of that form are enumerated first, in ascending order; all other
    keys follow in insertion order. *)
Definition digit_of (c : ascii) : option N :=
  let n := N_of_ascii c in
  if ((48 <=? n) && (n <=? 57))%N then Some (n - 48)%N else None.

Fixpoint parse_digits (acc : N) (s : string) : option N :=
  match s with
  | EmptyString => Some acc
  | String c r =>
      match digit_of c with
      | Some d => parse_digits (10 * acc + d)%N r
      | None => None
      end
  end.

Definition array_index (k : string) : option N :=
  match k with
  | EmptyString => None
  | String c r =>
      if Ascii.eqb c "0"%char && negb (String.eqb r "") then None
      else match parse_digits 0 k with
           | Some n => if (n <? 4294967295)%N then Some n else None
           | None => None
           end
  end.

(** An object literal whose values are numbers: its own enumerable
    properties, in the order [Object.keys] reports them. *)
Definition obj : Type := list (string * Z).

Fixpoint get_own (o : obj) (k : string) : option Z :=
  match o with
  | [] => None
  | (k', v) :: o' => if String.eqb k k' then Some v else get_own o' k
  end.

(** What the read [o[k]] yields on such an object: the number stored under
    the own property [k]; else the function or object that
    [Object.prototype] has under [k]; else [undefined]. *)
Inductive property : Type :=
  | Own (n : Z)
  | Inherited (member : string)
  | Missing.

Definition get (o : obj) (k : string) : property :=
  match get_own o k with
  | Some v => Own v
  | None => if inherited k then Inherited k else Missing
  end.

(** ToBoolean of a property read: functions and objects are truthy. *)
Definition present (p : property) : bool :=
  match p with
  | Own n => negb (Z.eqb n 0)
  | Inherited _ => true
  | Missing => false
  end.

(** A read [m[p]] on an object whose own keys are all numerals of integers
    (it was filled by [m[n] = v] with numbers [n] only).  The key of a
    number is its numeral; the key of a function or of [Object.prototype]
    is its source text or [[object Object]], which is neither a numeral nor
    a name found on [Object.prototype], so that read is [undefined]. *)
Definition get_num {V : Type} (m : gmap Z V) (p : property) : option V :=
  match p with
  | Own n => m !! n
  | Inherited _ | Missing => None
  end.

Fixpoint replace_own (o : obj) (k : string) (v : Z) : obj :=
  match o with
  | [] => []
  | (k', v') :: o' =>
      if String.eqb k k' then (k', v) :: o' else (k', v') :: replace_own o' k v
  end.

(** Position of a new array-index key [n]: before the first own key that is
    not an array index or is a larger one. *)
Fixpoint insert_index (o : obj) (n : N) (k : string) (v : Z) : obj :=
  match o with
  | [] => [(k, v)]
  | (k', v') :: o' =>
      match array_index k' with
      | Some n' =>
          if (n' <? n)%N then (k', v') :: insert_index o' n k v
          else (k, v) :: o
      | None => (k, v) :: o
      end
  end.

(** [o[k] = v] for a number [v].  Assigning a number to [__proto__] runs the
    inherited setter, which ignores values that are not objects. *)
Definition set (o : obj) (k : string) (v : Z) : obj :=
  if String.eqb k "__proto__" then o
  else match get_own o k with
       | Some _ => replace_own o k v
       | None =>
           match array_index k with
           | Some n => insert_index o n k v
           | None => o ++ [(k, v)]
           end
       end.

(** [Object.values(o)] and [Object.entries(o)]. *)
Definition values (o : obj) : list Z := map snd o.
Definition entries (o : obj) : list (string * Z) := o.

End Js.

(** ** The upstream services and the request log *)

Module Net.
Import Js.

Definition headers : Type := list (string * string).

(** One entry of [resp.data.data] of the bulk username lookup. *)
Record user : Type := mkUser { name : string; id : Z }.

(** One entry of [resp.data.userPresences]. *)
Record presence : Type := mkPresence {
  userId : Z;
  userPresenceType : Z;
  placeId : jsval;
  universeId : jsval;
  lastLocation : jsval
}.

(** One entry of the body of [multiget-place-details]; only [name] is read. *)
Record place : Type := mkPlace { placeName : string }.

(** The HTTP requests [server.js] sends with axios. *)
Inductive request : Type :=
  | PostUsernames (usernames : list string)
  | PostPresence (userIds : list Z) (h : headers)
  | GetPlaceDetails (placeIds : jsval) (h : headers).

(** The three services.  Each answer may depend on the requests sent
    before; [None] is a call that throws. *)
Record upstream : Type := mkUpstream {
  usernames_users : list request -> list string -> option (list user);
  presence_users : list request -> list Z -> headers -> option (list presence);
  place_details : list request -> jsval -> headers -> option (list place)
}.

(** Computations that send requests: the log of requests is threaded. *)
Definition M (A : Type) : Type := list request -> A * list request.

Definition ret {A : Type} (a : A) : M A := fun log => (a, log).

Definition bind {A B : Type} (c : M A) (k : A -> M B) : M B :=
  fun log => let '(a, log') := c log in k a log'.

Definition post_usernames (up : upstream) (chunk : list string)
  : M (option (list user)) :=
  fun log => (usernames_users up log chunk, log ++ [PostUsernames chunk]).

Definition post_presence (up : upstream) (ids : list Z) (h : headers)
  : M (option (list presence)) :=
  fun log => (presence_users up log ids h, log ++ [PostPresence ids h]).

Definition get_place_details (up : upstream) (i : jsval) (h : headers)
  : M (option (list place)) :=
  fun log => (place_details up log i h, log ++ [GetPlaceDetails i h]).

(** [for (const x of l) { ... push ... }] with a body that sends requests. *)
Fixpoint for_each {A B : Type} (body : A -> M B) (l : list A) : M (list B) :=
  match l with
  | [] => ret []
  | x :: l' => bind (body x) (fun y => bind (for_each body l') (fun ys => ret (y :: ys)))
  end.

End Net.

Notation "'let*' x ':=' c 'in' k" := (Net.bind c (fun x => k))
  (at level 10, x name, c at level 100, k at level 200).

(** ** server.js *)

Module Server.
Import Js Net.

(** [getHeaders(cookie)]; the cookie is the request header
    [x-roblox-cookie], absent ([None]) or a string. *)
Definition getHeaders (cookie : option string) : headers :=
  match cookie with
  | Some c =>
      if String.eqb c "" then []
      else [("Cookie", String.append ".ROBLOSECURITY=" c)]
  | None => []
  end.

(** [usernames.slice(i, j)] for [i <= j]. *)
Definition slice {A : Type} (l : list A) (i j : nat) : list A :=
  take (j - i) (drop i l).

(** The loop [for (let i = 0; i < usernames.length; i += 100)] of
    [getUserIds], started at [i]; [fuel] bounds the number of iterations. *)
Fixpoint chunks_from (fuel : nat) (usernames : list string) (i : nat)
  : list (list string) :=
  match fuel with
  | O => []
  | S fuel' =>
      if (i <? length usernames)%nat
      then slice usernames i (i + 100) :: chunks_from fuel' usernames (i + 100)
      else []
  end.

(** The loop makes at most [length usernames] iterations. *)
Definition chunks (usernames : list string) : list (list string) :=
  chunks_from (length usernames) usernames 0.

(** [resp.data.data.forEach(user => userMap[user.name.toLowerCase()] = user.id)]
    over entries that respect the contract; [Raw.add_users] also covers an
    entry on which the callback throws. *)
Definition add_users (userMap : obj) (data : list user) : obj :=
  fold_left (fun m u => Js.set m (toLowerCase (name u)) (id u)) data userMap.

(** The loop [for (const chunk of chunks)] of [getUserIds]: a chunk whose
    call throws is skipped.  Answers respect the contract here;
    [Raw.resolve_chunks] also covers an answer that makes the [forEach]
    throw half-way. *)
Fixpoint resolve_chunks (up : upstream) (cs : list (list string)) (userMap : obj)
  : M obj :=
  match cs with
  | [] => ret userMap
  | chunk :: rest =>
      let* resp := post_usernames up chunk in
      resolve_chunks up rest
        match resp with
        | Some data => add_users userMap data
        | None => userMap
        end
  end.

Definition getUserIds (up : upstream) (usernames : list string) : M obj :=
  if (length usernames =? 0)%nat then ret []
  else resolve_chunks up (chunks usernames) [].

Definition unknown_place : string := "Unknown Place".

(** [getGameInfo(id, cookie)] *)
Definition getGameInfo (up : upstream) (i : jsval) (cookie : option string)
  : M string :=
  if negb (truthy i) then ret unknown_place
  else
    let h := getHeaders cookie in
    let* resp := get_place_details up i h in
    ret match resp with
        | Some (placeData :: _) =>
            if String.eqb (placeName placeData) "" then unknown_place
            else placeName placeData
        | Some [] => unknown_place
        | None => unknown_place
        end.

(** One element of the array the handler answers with: either
    [{ username, error }] or the seven-field status record. *)
Inductive result : Type :=
  | NotFound (username error : string)
  | Status (username : string) (userId : property) (status : string)
           (placeId universeId : jsval) (mapName : string)
           (lastLocation : jsval).

Definition result_username (r : result) : string :=
  match r with NotFound u _ => u | Status u _ _ _ _ _ _ => u end.
Definition result_error (r : result) : option string :=
  match r with NotFound _ e => Some e | Status _ _ _ _ _ _ _ => None end.
Definition result_userId (r : result) : option property :=
  match r with NotFound _ _ => None | Status _ i _ _ _ _ _ => Some i end.
Definition result_status (r : result) : option string :=
  match r with NotFound _ _ => None | Status _ _ s _ _ _ _ => Some s end.
Definition result_mapName (r : result) : option string :=
  match r with NotFound _ _ => None | Status _ _ _ _ _ m _ => Some m end.

(** What the handler sends: [res.status(400).json({ error })] or
    [res.json(results)]. *)
Inductive response : Type :=
  | BadRequest (error : string)
  | Ok (results : list result).

Definition status_code (r : response) : nat :=
  match r with BadRequest _ => 400%nat | Ok _ => 200%nat end.

(** [new Set(l)] spread back into an array: elements in insertion order,
    an element already in the set is not added again. *)
Definition Set_add (s : list string) (x : string) : list string :=
  if decide (x ∈ s) then s else s ++ [x].

Definition Set_of (l : list string) : list string := fold_left Set_add l [].

(** [[...new Set(users.map(u => u.trim()).filter(u => u))]] *)
Definition uniqueUsers (users : list string) : list string :=
  Set_of (filter (fun u => u ≠ "") (map trim users)).

(** [presenceData.userPresences.forEach(p => { presenceMap[p.userId] = p })] *)
Definition presenceMap_of (userPresences : list presence) : gmap Z presence :=
  fold_left (fun m p => <[userId p := p]> m) userPresences ∅.

(** [Object.entries(userMap).reduce((acc, [username, id]) => { acc[id] =
    username; return acc }, {})] *)
Definition userIdToUsernameMap_of (userMap : obj) : gmap Z string :=
  fold_left (fun acc e => <[snd e := fst e]> acc) (entries userMap) ∅.

Definition not_found_message : string := "Pengguna tidak ditemukan di Roblox.".

(** The status, map name, place id, universe id and last location the
    handler derives from the presence entry of one user. *)
Definition classify (up : upstream) (cookie : option string)
    (pr : option presence)
  : M (string * string * jsval * jsval * jsval) :=
  match pr with
  | None => ret ("Offline", "Offline", JNull, JNull, JStr "Offline")
  | Some p =>
      if (userPresenceType p =? 3)%Z then
        let* mapName :=
          getGameInfo up (or_else (universeId p) (placeId p)) cookie in
        ret ("In Game",
             if negb (truthy (placeId p)) then "In Game (placeId hidden)"
             else mapName,
             placeId p, universeId p, lastLocation p)
      else if (userPresenceType p =? 2)%Z then
        ret ("In Game", "In Studio", placeId p, universeId p, lastLocation p)
      else if (userPresenceType p =? 1)%Z then
        ret ("Online", "Online di Website",
             placeId p, universeId p, lastLocation p)
      else
        ret ("Offline", "Offline", placeId p, universeId p, lastLocation p)
  end.

(** [userIdToUsernameMap[userId] || username] *)
Definition display_name (names : gmap Z string) (uid : property)
    (username : string) : string :=
  match get_num names uid with
  | Some s => if String.eqb s "" then username else s
  | None => username
  end.

(** The body of the loop [for (const username of uniqueUsers)]. *)
Definition user_result (up : upstream) (cookie : option string)
    (userMap : obj) (presenceMap : gmap Z presence) (names : gmap Z string)
    (username : string) : M result :=
  let uid := Js.get userMap (toLowerCase username) in
  if negb (present uid) then ret (NotFound username not_found_message)
  else
    let* c := classify up cookie (get_num presenceMap uid) in
    let '(status, mapName, placeId, universeId, lastLocation) := c in
    ret (Status (display_name names uid username) uid status
                placeId universeId mapName lastLocation).

(** The handler of [POST /api/status]; [cookie] is the header
    [x-roblox-cookie] and [users] is [req.body.users], absent or an array
    of strings.  The presence answer is a call that throws or a body that
    respects the contract; [Raw.api_status] also covers a body on which
    the [forEach] after the [try] throws. *)
Definition api_status (up : upstream) (cookie : option string)
    (users : option (list string)) : M response :=
  match users with
  | None => ret (BadRequest "Daftar pengguna kosong.")
  | Some users =>
      if (length users =? 0)%nat then ret (BadRequest "Daftar pengguna kosong.")
      else
        let uniq := uniqueUsers users in
        let* userMap := getUserIds up uniq in
        let validUserIds := Js.values userMap in
        let h := getHeaders cookie in
        let* userPresences :=
          if (0 <? length validUserIds)%nat
          then let* resp := post_presence up validUserIds h in
               ret match resp with Some d => d | None => [] end
          else ret [] in
        let presenceMap := presenceMap_of userPresences in
        let names := userIdToUsernameMap_of userMap in
        let* results :=
          for_each (user_result up cookie userMap presenceMap names) uniq in
        ret (Ok results)
  end.

End Server.

(** ** Reference definitions used in the statements *)

Module Spec.
Import Js Net Server.

(** The distinct elements of a list, each kept at its first occurrence. *)
Fixpoint first_occurrences (l : list string) : list string :=
  match l with
  | [] => []
  | x :: l' => x :: filter (fun y => y <> x) (first_occurrences l')
  end.


(** Sizes of the batches cut from [n] names starting at offset [i]. *)
Fixpoint batch_sizes (fuel n i : nat) : list nat :=
  match fuel with
  | O => []
  | S fuel' =>
      if (i <? n)%nat then Nat.min 100 (n - i) :: batch_sizes fuel' n (i + 100)
      else []
  end.

(** The answer of the username service to the [i]-th batch of
    [getUserIds], the log being [log] when [getUserIds] starts. *)
Definition batch_reply (up : upstream) (log : list request)
    (cs : list (list string)) (i : nat) : option (list user) :=
  match cs !! i with
  | Some c => usernames_users up (log ++ map PostUsernames (take i cs)) c
  | None => None
  end.

(** The stages of one run of the handler on a non-empty array [users],
    the log being [log] when the request arrives: the object [userMap], the
    log once the usernames are looked up, the answer of the presence
    service, the array [presenceData.userPresences] and the two lookup
    objects built before the loop. *)
Definition userMap_of (up : upstream) (users : list string)
    (log : list request) : obj :=
  (getUserIds up (uniqueUsers users) log).1.

Definition log_after_lookup (up : upstream) (users : list string)
    (log : list request) : list request :=
  (getUserIds up (uniqueUsers users) log).2.

Definition presence_reply (up : upstream) (cookie : option string)
    (users : list string) (log : list request) : option (list presence) :=
  presence_users up (log_after_lookup up users log)
    (Js.values (userMap_of up users log)) (getHeaders cookie).

Definition userPresences_of (up : upstream) (cookie : option string)
    (users : list string) (log : list request) : list presence :=
  if (0 <? length (Js.values (userMap_of up users log)))%nat
  then match presence_reply up cookie users log with
       | Some d => d
       | None => []
       end
  else [].

(** The loop body of the handler, with the objects of that run. *)
Definition user_result_of (up : upstream) (cookie : option string)
    (users : list string) (log : list request) : string -> M result :=
  user_result up cookie (userMap_of up users log)
    (presenceMap_of (userPresences_of up cookie users log))
    (userIdToUsernameMap_of (userMap_of up users log)).


End Spec.

(** ** Sample upstream services *)

Module Sample.
Import Js Net Server.

(** A small directory of accounts with their canonical names. *)
Definition directory : list user :=
  [ mkUser "Bob" 1; mkUser "Alice" 2; mkUser "Carol" 3; mkUser "Dave" 4 ].

(** Name matching of the username service is case-insensitive; the answer
    carries the canonical name. *)
Definition find_user (requested : string) : option user :=
  find (fun u => String.eqb (toLowerCase (name u)) (toLowerCase requested))
       directory.

Definition lookup_users (chunk : list string) : list user :=
  omap find_user chunk.

(** Bob plays place 10 of universe 77; Alice plays with her place hidden;
    Carol has a presence type outside the documented range; Dave has no
    presence entry. *)
Definition presence_table : list presence :=
  [ mkPresence 1 3 (JNum 10) (JNum 77) (JStr "Fish It");
    mkPresence 2 3 JNull (JNum 77) (JStr "");
    mkPresence 3 4 (JNum 10) JNull (JStr "Website") ].

Definition lookup_presence (ids : list Z) : list presence :=
  filter (fun p => userId p ∈ ids) presence_table.

Definition lookup_place (i : jsval) : list place :=
  match i with
  | JNum 77 => [mkPlace "Fish It"]
  | _ => []
  end.

(** All three services answer. *)
Definition roblox : upstream :=
  mkUpstream (fun _ chunk => Some (lookup_users chunk))
             (fun _ ids _ => Some (lookup_presence ids))
             (fun _ i _ => Some (lookup_place i)).

(** The presence and place services are down. *)
Definition roblox_lookup_only : upstream :=
  mkUpstream (fun _ chunk => Some (lookup_users chunk))
             (fun _ _ _ => None)
             (fun _ _ _ => None).

(** The username service fails on the second request it receives. *)
Definition roblox_second_batch_down : upstream :=
  mkUpstream (fun log chunk =>
                if (length log =? 1)%nat then None
                else Some (lookup_users chunk))
             (fun _ ids _ => Some (lookup_presence ids))
             (fun _ i _ => Some (lookup_place i)).

(** Generated names [u0], [u1], ... *)
Definition numbered (n : nat) : string :=
  String.append "u" (NilEmpty.string_of_uint (Nat.to_uint n)).

Definition numbered_names (from count : nat) : list string :=
  map numbered (seq from count).

(** 101 distinct usernames: [Bob] opens the first batch and [bob] is alone
    in the second. *)
Definition bob_twice : list string :=
  "Bob" :: numbered_names 1 99 ++ ["bob"].

End Sample.

(** ** Further reference definitions *)

Module Derived.
Import Js Net Server.

(** The entries the username service answered with during one run of
    [getUserIds] over the batches [cs], in the order [forEach] visits them;
    a batch whose call throws contributes none. *)
Fixpoint answered_entries (up : upstream) (log : list request)
    (cs : list (list string)) : list user :=
  match cs with
  | [] => []
  | c :: rest =>
      match usernames_users up log c with
      | Some data => data
      | None => []
      end ++ answered_entries up (log ++ [PostUsernames c]) rest
  end.

(** The id of the last entry of [es] whose lower-cased name is [k]. *)
Definition last_id (k : string) (es : list user) : option Z :=
  id <$> last (filter (fun w => toLowerCase (name w) = k) es).

(** The presence request of one run of the handler, if it is sent. *)
Definition presence_requests (userMap : obj) (h : headers) : list request :=
  if (0 <? length (Js.values userMap))%nat
  then [PostPresence (Js.values userMap) h]
  else [].

(** A place lookup for a truthy identifier, sent with the headers [h]. *)
Definition is_place_lookup (h : headers) (r : request) : Prop :=
  exists i, truthy i = true /\ r = GetPlaceDetails i h.

(** The usernames a log of requests asks the username service about, in
    the order they are sent. *)
Definition looked_up (log : list request) : list string :=
  concat (map (fun r => match r with
                        | PostUsernames us => us
                        | _ => []
                        end) log).

(** The three status labels of the handler. *)
Definition status_labels : list string := ["Offline"; "Online"; "In Game"].

End Derived.

(** ** The earlier variant of the endpoint (src/unnamed/part_000)

    [GET /api/status] over a fixed list of usernames: one username lookup
    and one presence request per user, each user in its own [try]/[catch].
    Here a call that throws carries the message of its error, since the
    handler reports [err.message]. *)

Module Legacy.
Import Js.

(** What a [catch] block can receive: the error of a failed request, with
    its message, or the TypeError thrown by [presence.placeId] when
    [getPresence] returned [undefined]. *)
Inductive failure : Type :=
  | RequestFailed (message : string)
  | UndefinedPresence.

(** The requests of this variant; [getPresence] may be handed [undefined]
    for a user ID, which is [None] here. *)
Inductive request : Type :=
  | PostUsernames (usernames : list string)
  | PostPresence (userIds : list (option Z)) (h : Net.headers)
  | GetPlaceDetails (placeIds : jsval) (h : Net.headers).

(** The three services; [inl message] is a call that throws. *)
Record upstream : Type := mkUpstream {
  usernames_users : list request -> list string -> string + list Net.user;
  presence_users :
    list request -> list (option Z) -> Net.headers -> string + list Net.presence;
  place_details :
    list request -> jsval -> Net.headers -> string + list Net.place
}.

(** Computations that send requests and may throw. *)
Definition M (A : Type) : Type := list request -> (failure + A) * list request.

Definition ret {A : Type} (a : A) : M A := fun log => (inr a, log).

Definition throw {A : Type} (e : failure) : M A := fun log => (inl e, log).

Definition bind {A B : Type} (c : M A) (k : A -> M B) : M B :=
  fun log =>
    match c log with
    | (inl e, log') => (inl e, log')
    | (inr a, log') => k a log'
    end.

(** [try { c } catch (err) { handler(err) }] with a handler that does not
    throw. *)
Definition try_catch {A : Type} (c : M A) (handler : failure -> A)
  : list request -> A * list request :=
  fun log =>
    match c log with
    | (inl e, log') => (handler e, log')
    | (inr a, log') => (a, log')
    end.

Definition request_of {A : Type} (r : request) (answer : string + A) : M A :=
  fun log =>
    (match answer with
     | inl message => inl (RequestFailed message)
     | inr a => inr a
     end, log ++ [r]).

(** [getUserId(username)]: [resp.data.data?.[0]?.id] *)
Definition getUserId (up : upstream) (username : string) : M (option Z) :=
  fun log =>
    bind (request_of (PostUsernames [username])
            (usernames_users up log [username]))
         (fun data => ret (Net.id <$> head data)) log.

(** [getHeaders(req)], [req] being given by its header [x-roblox-cookie]. *)
Definition getHeaders (cookie : option string) : Net.headers :=
  match cookie with
  | None => []
  | Some c =>
      if String.eqb c "" then []
      else [("Cookie", String.append ".ROBLOSECURITY=" c)]
  end.

(** [getPresence(userId, headers)]: [resp.data.userPresences[0]] *)
Definition getPresence (up : upstream) (uid : option Z) (h : Net.headers)
  : M (option Net.presence) :=
  fun log =>
    bind (request_of (PostPresence [uid] h) (presence_users up log [uid] h))
         (fun ps => ret (head ps)) log.

(** [getGameInfo(placeId, headers)]; its own [catch] returns the sentinel,
    so it never throws. *)
Definition getGameInfo (up : upstream) (i : jsval) (h : Net.headers)
  : M string :=
  if negb (truthy i) then ret "Unknown Place"
  else fun log =>
    (inr match place_details up log i h with
         | inr (placeData :: _) =>
             if String.eqb (Net.placeName placeData) "" then "Unknown Place"
             else Net.placeName placeData
         | inr [] => "Unknown Place"
         | inl _ => "Unknown Place"
         end, log ++ [GetPlaceDetails i h]).

(** One element of the answer: [{ username, error }] or the five-field
    record. *)
Inductive result : Type :=
  | Failed (username : string) (error : failure)
  | Status (username status : string) (placeId : jsval) (mapName : string)
           (lastLocation : jsval).

Definition result_username (r : result) : string :=
  match r with Failed u _ => u | Status u _ _ _ _ => u end.

(** The map name of a presence entry without [placeId]. *)
Definition label_of (ty : Z) : string :=
  if (ty =? 3)%Z then "In Game (placeId hidden)"
  else if (ty =? 2)%Z then "In Studio"
  else if (ty =? 1)%Z then "Online"
  else "Offline".

(** The status label of a presence type. *)
Definition status_of (ty : Z) : string :=
  if (ty =? 0)%Z then "Offline"
  else if (ty =? 1)%Z then "Online"
  else "In Game".

(** The body of the [try] block for one username. *)
Definition lookup_status (up : upstream) (h : Net.headers) (username : string)
  : M result :=
  bind (getUserId up username) (fun uid =>
  bind (getPresence up uid h) (fun presence =>
  match presence with
  | None => throw UndefinedPresence
  | Some p =>
      bind (if truthy (Net.placeId p) then getGameInfo up (Net.placeId p) h
            else ret (label_of (Net.userPresenceType p)))
           (fun mapName =>
              ret (Status username (status_of (Net.userPresenceType p))
                          (or_else (Net.placeId p) JNull) mapName
                          (or_else (Net.lastLocation p) (JStr "FISH IT"))))
  end)).

(** One turn of the loop: the [try] block and its [catch]. *)
Definition user_result (up : upstream) (h : Net.headers) (username : string)
  : list request -> result * list request :=
  try_catch (lookup_status up h username) (Failed username).

Fixpoint for_each (body : string -> list request -> result * list request)
    (l : list string) (log : list request) : list result * list request :=
  match l with
  | [] => ([], log)
  | x :: l' =>
      let '(r, log1) := body x log in
      let '(rs, log2) := for_each body l' log1 in
      (r :: rs, log2)
  end.

(** The list the handler iterates over. *)
Definition users : list string :=
  [ "Taloongoodboy"; "Basoka001"; "Basooka002"; "Basooka003"; "Basooka004";
    "nyukk1000"; "nyukk1002"; "nyukk10003"; "kuya0600"; "uubyyror";
    "talonbaikk63"; "ermancing_1"; "Duck_CHILL37"; "Julian_Dawn72";
    "NovaPrism200531"; "XxOw3nQu33nTurb0xX"; "Fr0st_TIG3R53";
    "IsabellaFireBlade201"; "StormMoonGolden79" ].

(** The handler of [GET /api/status]: the array sent with [res.json]. *)
Definition api_status (up : upstream) (cookie : option string)
  : list request -> list result * list request :=
  for_each (user_result up (getHeaders cookie)) users.

(** Sample services: Basoka001 is account 11, offline but with a place
    recorded; Basooka002 is account 12 with an unknown presence type;
    the lookup of nyukk1000 fails; kuya0600 has no presence entry; nobody
    else is known. *)
Definition sample : upstream :=
  mkUpstream
    (fun _ names =>
       match names with
       | ["Basoka001"] => inr [Net.mkUser "Basoka001" 11]
       | ["Basooka002"] => inr [Net.mkUser "Basooka002" 12]
       | ["kuya0600"] => inr [Net.mkUser "kuya0600" 13]
       | ["nyukk1000"] => inl "Request failed with status code 429"
       | _ => inr []
       end)
    (fun _ ids _ =>
       match ids with
       | [Some 11%Z] => inr [Net.mkPresence 11 0 (JNum 10) JNull (JStr "")]
       | [Some 12%Z] => inr [Net.mkPresence 12 5 JNull JNull (JStr "Lobby")]
       | [Some _] => inr []
       | _ => inl "Request failed with status code 400"
       end)
    (fun _ i _ =>
       match i with
       | JNum 10 => inr [Net.mkPlace "Fish It"]
       | _ => inr []
       end).

End Legacy.

(** ** server.js on answers that break the upstream contract *)

Module Raw.
Import Js Net Server.

(** One element of [resp.data.data]: an object with a string [name] and a
    numeric [id], or a value on which [user.name.toLowerCase()] throws
    ([null], or an object whose [name] is not a string). *)
Inductive entry : Type :=
  | Entry (u : user)
  | Malformed.

(** The body of a presence answer with a 2xx status:
    [resp.data.userPresences] is an array whose elements are presence
    objects or values on which [p.userId] throws ([None]); or there is no
    such array ([resp.data] is empty, or lacks the field, or the field is
    not an array), so that [presenceData.userPresences.forEach] throws. *)
Inductive presence_body : Type :=
  | NoPresenceArray
  | Presences (userPresences : list (option presence)).

(** The three services.  [None] is a call that throws; for the username
    and the place service it also stands for a body on which the first
    property access throws, which the same [catch] receives before
    anything is written. *)
Record upstream : Type := mkUpstream {
  usernames_users : list request -> list string -> option (list entry);
  presence_users : list request -> list Z -> headers -> option presence_body;
  place_details : list request -> jsval -> headers -> option (list place)
}.

Definition post_usernames (up : upstream) (chunk : list string)
  : M (option (list entry)) :=
  fun log => (usernames_users up log chunk, log ++ [PostUsernames chunk]).

Definition post_presence (up : upstream) (ids : list Z) (h : headers)
  : M (option presence_body) :=
  fun log => (presence_users up log ids h, log ++ [PostPresence ids h]).

(** [resp.data.data.forEach(user => userMap[user.name.toLowerCase()] =
    user.id)] inside the [try]: the callback throws at the first malformed
    entry, the [catch] only logs, and what was written before stays. *)
Fixpoint add_users (userMap : obj) (data : list entry) : obj :=
  match data with
  | [] => userMap
  | Entry u :: rest =>
      add_users (Js.set userMap (toLowerCase (name u)) (id u)) rest
  | Malformed :: _ => userMap
  end.

(** The loop [for (const chunk of chunks)] of [getUserIds]. *)
Fixpoint resolve_chunks (up : upstream) (cs : list (list string)) (userMap : obj)
  : M obj :=
  match cs with
  | [] => ret userMap
  | chunk :: rest =>
      let* resp := post_usernames up chunk in
      resolve_chunks up rest
        match resp with
        | Some data => add_users userMap data
        | None => userMap
        end
  end.

Definition getUserIds (up : upstream) (usernames : list string) : M obj :=
  if (length usernames =? 0)%nat then ret []
  else resolve_chunks up (chunks usernames) [].

(** [getGameInfo] and the loop body of the handler consult the place
    service only, whose answers are read inside a [try]. *)
Definition place_service (up : upstream) : Net.upstream :=
  Net.mkUpstream (fun _ _ => None) (fun _ _ _ => None) (place_details up).

(** [presenceData.userPresences.forEach(p => { presenceMap[p.userId] = p })],
    which throws at an element that is not an object. *)
Fixpoint presenceMap_from (userPresences : list (option presence))
    (presenceMap : gmap Z presence) : option (gmap Z presence) :=
  match userPresences with
  | [] => Some presenceMap
  | Some p :: rest => presenceMap_from rest (<[userId p := p]> presenceMap)
  | None :: _ => None
  end.

(** How a run of the handler ends: it sends a response, or the async
    handler throws and its promise is rejected without the handler having
    sent anything. *)
Inductive outcome : Type :=
  | Sent (r : response)
  | Rejected.

(** The handler of [POST /api/status]. *)
Definition api_status (up : upstream) (cookie : option string)
    (users : option (list string)) : M outcome :=
  match users with
  | None => ret (Sent (BadRequest "Daftar pengguna kosong."))
  | Some users =>
      if (length users =? 0)%nat
      then ret (Sent (BadRequest "Daftar pengguna kosong."))
      else
        let uniq := uniqueUsers users in
        let* userMap := getUserIds up uniq in
        let validUserIds := Js.values userMap in
        let h := getHeaders cookie in
        let* presenceData :=
          if (0 <? length validUserIds)%nat
          then let* resp := post_presence up validUserIds h in
               ret match resp with Some body => body | None => Presences [] end
          else ret (Presences []) in
        match presenceData with
        | NoPresenceArray => ret Rejected
        | Presences userPresences =>
            match presenceMap_from userPresences ∅ with
            | None => ret Rejected
            | Some presenceMap =>
                let names := userIdToUsernameMap_of userMap in
                let* results :=
                  for_each (user_result (place_service up) cookie userMap
                              presenceMap names) uniq in
                ret (Sent (Ok results))
            end
        end
  end.

(** *** Reference definitions *)

(** The entries of an answer that [forEach] processes: those before the
    first malformed one. *)
Fixpoint processed (data : list entry) : list user :=
  match data with
  | Entry u :: rest => u :: processed rest
  | _ => []
  end.

(** The processed entries of the answer to the [i]-th batch of
    [getUserIds], the log being [log] when [getUserIds] starts; none when
    the call throws. *)
Definition processed_reply (up : upstream) (log : list request)
    (cs : list (list string)) (i : nat) : list user :=
  match cs !! i with
  | Some c =>
      match usernames_users up (log ++ map PostUsernames (take i cs)) c with
      | Some data => processed data
      | None => []
      end
  | None => []
  end.

(** All processed entries of one run of [getUserIds], in the order they
    are written. *)
Fixpoint processed_entries (up : upstream) (log : list request)
    (cs : list (list string)) : list user :=
  match cs with
  | [] => []
  | c :: rest =>
      match usernames_users up log c with
      | Some data => processed data
      | None => []
      end ++ processed_entries up (log ++ [PostUsernames c]) rest
  end.

(** The presence objects of an array, and whether a body is an array of
    objects. *)
Definition objects (userPresences : list (option presence)) : list presence :=
  omap (fun p => p) userPresences.

Definition well_formed (body : presence_body) : bool :=
  match body with
  | NoPresenceArray => false
  | Presences userPresences =>
      forallb (fun p => match p with Some _ => true | None => false end)
              userPresences
  end.

(** What the presence service answers in one run of the handler on the
    array [users], and whether the handler asks it. *)
Definition presence_reply (up : upstream) (cookie : option string)
    (users : list string) (log : list request) : option presence_body :=
  presence_users up (getUserIds up (uniqueUsers users) log).2
    (Js.values (getUserIds up (uniqueUsers users) log).1) (getHeaders cookie).

Definition presence_requested (up : upstream) (users : list string)
    (log : list request) : bool :=
  (0 <? length (Js.values (getUserIds up (uniqueUsers users) log).1))%nat.

(** The same services seen through the contract: of a username answer the
    processed entries, of a presence body its objects. *)
Definition contract_view (up : upstream) : Net.upstream :=
  Net.mkUpstream
    (fun log chunk => processed <$> usernames_users up log chunk)
    (fun log ids h =>
       match presence_users up log ids h with
       | Some (Presences userPresences) => Some (objects userPresences)
       | Some NoPresenceArray => Some []
       | None => None
       end)
    (place_details up).

(** Services that respect the contract, as raw services. *)
Definition of_contract (up : Net.upstream) : upstream :=
  mkUpstream
    (fun log chunk => map Entry <$> Net.usernames_users up log chunk)
    (fun log ids h =>
       (fun ps => Presences (map Some ps)) <$> Net.presence_users up log ids h)
    (Net.place_details up).

(** *** Sample services *)

(** The sample directory, with a presence service that answers 200 with a
    body that has no [userPresences] array. *)
Definition presence_without_array : upstream :=
  mkUpstream (fun _ chunk => Some (map Entry (Sample.lookup_users chunk)))
             (fun _ _ _ => Some NoPresenceArray)
             (fun _ i _ => Some (Sample.lookup_place i)).

(** A username service whose first answer is malformed after its first
    entry and whose later calls throw. *)
Definition half_malformed : upstream :=
  mkUpstream (fun log _ =>
                if (length log =? 0)%nat
                then Some [Entry (mkUser "Bob" 1); Malformed;
                           Entry (mkUser "Carol" 3)]
                else None)
             (fun _ ids _ =>
                Some (Presences (map Some (Sample.lookup_presence ids))))
             (fun _ i _ => Some (Sample.lookup_place i)).

End Raw.

(** * Properties *)

(** ** Strings *)

Module JsFacts.
Import Js.

Lemma trimEnd_whitespace (s : string) :
  whitespace_only s = true -> trimEnd s = "".
Proof.
  induction s as [|c r IH]; simpl; [reflexivity|].
  intros [Hc Hr]%andb_true_iff. rewrite (IH Hr), Hc. reflexivity.
Qed.

Lemma trimEnd_empty (s : string) :
  trimEnd s = "" -> whitespace_only s = true.
Proof.
  induction s as [|c r IH]; simpl; [reflexivity|].
  destruct (trimEnd r) eqn:Hr; [|discriminate].
  destruct (is_space c); [|discriminate].
  intros _. simpl. apply IH. reflexivity.
Qed.

Lemma whitespace_only_trimStart (s : string) :
  whitespace_only (trimStart s) = whitespace_only s.
Proof.
  induction s as [|c r IH]; simpl; [reflexivity|].
  destruct (is_space c) eqn:Hc; simpl; [exact IH|].
  rewrite Hc. reflexivity.
Qed.

(** [trim] leaves nothing exactly when the string is white space only. *)
Lemma trim_empty_iff (s : string) :
  trim s = "" <-> whitespace_only s = true.
Proof.
  unfold trim. split.
  - intros H%trimEnd_empty. rewrite whitespace_only_trimStart in H. exact H.
  - intros H. apply trimEnd_whitespace.
    rewrite whitespace_only_trimStart. exact H.
Qed.

Lemma eqb_false_iff (s t : string) : String.eqb s t = false <-> s <> t.
Proof.
  destruct (String.eqb_spec s t); split; intros; congruence.
Qed.

End JsFacts.

(** ** Object literals *)

Module ObjFacts.
Import Js.

Lemma get_own_elem (o : obj) (k : string) (v : Z) :
  get_own o k = Some v -> (k, v) ∈ o.
Proof.
  induction o as [|[k' v'] o IH]; simpl; [discriminate|].
  destruct (String.eqb_spec k k') as [->|Hne].
  - intros [= ->]. left.
  - intros H. right. auto.
Qed.

Lemma get_own_is_Some (o : obj) (k : string) :
  is_Some (get_own o k) <-> k ∈ map fst o.
Proof.
  induction o as [|[k' v'] o IH]; simpl.
  - split; [intros [? [=]]|intros H; inversion H].
  - destruct (String.eqb_spec k k') as [->|Hne].
    + split; [intros _; left|eauto].
    + rewrite IH. split; [intros H; right; exact H|].
      intros H. inversion H; subst; [congruence|assumption].
Qed.

Lemma elem_replace_own (o : obj) (k : string) (v : Z) (e : string * Z) :
  e ∈ replace_own o k v -> e ∈ o \/ e = (k, v).
Proof.
  induction o as [|[k' v'] o IH]; simpl; [intros H; inversion H|].
  destruct (String.eqb_spec k k') as [->|Hne]; intros H.
  - inversion H; subst; [right; reflexivity|left; right; assumption].
  - inversion H; subst; [left; left|].
    destruct (IH ltac:(assumption)) as [?|?]; [left; right; assumption|right; assumption].
Qed.

Lemma keys_replace_own (o : obj) (k : string) (v : Z) :
  map fst (replace_own o k v) = map fst o.
Proof.
  induction o as [|[k' v'] o IH]; simpl; [reflexivity|].
  destruct (String.eqb k k'); simpl; congruence.
Qed.

Lemma elem_insert_index (o : obj) (n : N) (k : string) (v : Z) (e : string * Z) :
  e ∈ insert_index o n k v <-> e = (k, v) \/ e ∈ o.
Proof.
  induction o as [|[k' v'] o IH]; simpl.
  - rewrite list_elem_of_singleton. split; [auto|intros [?|H]; [assumption|inversion H]].
  - destruct (array_index k') as [n'|]; [destruct (n' <? n)%N|];
      rewrite !elem_of_cons; try rewrite IH; tauto.
Qed.

(** An assignment adds at most the pair it writes. *)
Lemma elem_set (o : obj) (k : string) (v : Z) (e : string * Z) :
  e ∈ Js.set o k v -> e ∈ o \/ e = (k, v).
Proof.
  unfold Js.set. destruct (String.eqb k "__proto__"); [auto|].
  destruct (get_own o k).
  - apply elem_replace_own.
  - destruct (array_index k).
    + rewrite elem_insert_index. tauto.
    + rewrite elem_of_app, list_elem_of_singleton. tauto.
Qed.

(** An assignment never removes a key, and it creates its own key unless
    that key is [__proto__]. *)
Lemma keys_set (o : obj) (k : string) (v : Z) (k' : string) :
  k' ∈ map fst (Js.set o k v) <->
  k' ∈ map fst o \/ (k' = k /\ k <> "__proto__").
Proof.
  unfold Js.set. destruct (String.eqb_spec k "__proto__") as [->|Hp].
  - tauto.
  - destruct (get_own o k) eqn:Hk.
    + rewrite keys_replace_own. split; [auto|].
      intros [?|[-> _]]; [assumption|].
      apply get_own_is_Some. eauto.
    + destruct (array_index k).
      * rewrite !list_elem_of_fmap. split.
        -- intros [e [-> He]]. apply elem_insert_index in He as [->|He].
           ++ right. split; [reflexivity|assumption].
           ++ left. exists e. split; [reflexivity|assumption].
        -- intros [[e [-> He]]|[-> _]].
           ++ exists e. split; [reflexivity|]. apply elem_insert_index. auto.
           ++ exists (k, v). split; [reflexivity|]. apply elem_insert_index. auto.
      * rewrite map_app, elem_of_app. simpl. rewrite list_elem_of_singleton. tauto.
Qed.

End ObjFacts.

(** ** The helpers of server.js *)

Module ServerFacts.
Import Js Net Server Spec.

(** *** Set deduplication *)

Lemma elem_first_occurrences (l : list string) (y : string) :
  y ∈ first_occurrences l <-> y ∈ l.
Proof.
  induction l as [|x l IH]; simpl; [reflexivity|].
  rewrite !elem_of_cons, list_elem_of_filter, IH.
  destruct (decide (y = x)); tauto.
Qed.

Lemma NoDup_first_occurrences (l : list string) : NoDup (first_occurrences l).
Proof.
  induction l as [|x l IH]; simpl; constructor.
  - rewrite list_elem_of_filter. tauto.
  - apply NoDup_filter, IH.
Qed.

Lemma fold_Set_add (l s : list string) :
  fold_left Set_add l s = s ++ filter (fun x => x ∉ s) (first_occurrences l).
Proof.
  revert s. induction l as [|x l IH]; intros s; simpl.
  - rewrite filter_nil, app_nil_r. reflexivity.
  - rewrite IH. unfold Set_add. destruct (decide (x ∈ s)) as [Hin|Hnin].
    + rewrite filter_cons_False by tauto. f_equal.
      rewrite list_filter_filter. apply list_filter_iff.
      intros y. simpl. split; [|intros [? ?]; assumption].
      intros Hy. split; [assumption|congruence].
    + rewrite filter_cons_True by assumption.
      rewrite <- app_assoc. simpl. do 2 f_equal.
      rewrite list_filter_filter. apply list_filter_iff.
      intros y. simpl. rewrite elem_of_app, list_elem_of_singleton. tauto.
Qed.

(** A [Set] built from an array keeps each element at its first
    occurrence. *)
Lemma Set_of_first_occurrences (l : list string) :
  Set_of l = first_occurrences l.
Proof.
  unfold Set_of. rewrite fold_Set_add. simpl.
  induction (first_occurrences l) as [|x r IH]; [reflexivity|].
  rewrite filter_cons_True by apply not_elem_of_nil. congruence.
Qed.

Lemma elem_Set_of (l : list string) (y : string) : y ∈ Set_of l <-> y ∈ l.
Proof. rewrite Set_of_first_occurrences. apply elem_first_occurrences. Qed.

Lemma NoDup_Set_of (l : list string) : NoDup (Set_of l).
Proof. rewrite Set_of_first_occurrences. apply NoDup_first_occurrences. Qed.


(** The output for a prefix of the input is a prefix of the output: an
    element is placed when it is first met. *)
Lemma Set_of_prefix (m1 m2 : list string) (x : string) :
  x ∉ m1 -> exists rest, Set_of (m1 ++ x :: m2) = Set_of m1 ++ x :: rest.
Proof.
  intros Hx. unfold Set_of. rewrite fold_left_app. simpl.
  change (fold_left Set_add m1 []) with (Set_of m1).
  unfold Set_add at 2.
  destruct (decide (x ∈ Set_of m1)) as [Hin|_].
  - rewrite elem_Set_of in Hin. destruct (Hx Hin).
  - rewrite fold_Set_add, <- app_assoc. simpl. eauto.
Qed.

Lemma elem_uniqueUsers (users : list string) (u : string) :
  u ∈ uniqueUsers users <-> u <> "" /\ exists v, v ∈ users /\ u = trim v.
Proof.
  unfold uniqueUsers. rewrite elem_Set_of, list_elem_of_filter.
  change (map trim users) with (trim <$> users).
  rewrite list_elem_of_fmap. split.
  - intros [? [v [? ?]]]. eauto.
  - intros [? [v [? ?]]]. eauto.
Qed.

(** *** Loops that send requests *)

Lemma for_each_results {A B : Type} (body : A -> M B) (l : list A)
    (log : list request) :
  Forall2 (fun x y => exists lg, y = (body x lg).1) l (for_each body l log).1.
Proof.
  revert log. induction l as [|x l IH]; intros log; simpl.
  - constructor.
  - unfold bind. destruct (body x log) as [y log1] eqn:Hb.
    specialize (IH log1). destruct (for_each body l log1) as [ys log2].
    simpl in *. constructor; [|exact IH].
    exists log. rewrite Hb. reflexivity.
Qed.

(** *** Batching *)

Lemma slice_hundred (l : list string) (i : nat) :
  slice l i (i + 100) = take 100 (drop i l).
Proof. unfold slice. f_equal. lia. Qed.

Lemma concat_chunks_from (fuel : nat) (l : list string) (i : nat) :
  length l - i <= fuel -> concat (chunks_from fuel l i) = drop i l.
Proof.
  revert i. induction fuel as [|fuel IH]; intros i Hf; simpl.
  - symmetry. apply drop_ge. lia.
  - destruct (Nat.ltb_spec i (length l)) as [Hlt|Hge].
    + simpl. rewrite IH by lia. rewrite slice_hundred.
      rewrite <- (take_drop 100 (drop i l)) at 2.
      rewrite drop_drop. reflexivity.
    + symmetry. apply drop_ge. lia.
Qed.

Lemma lookup_chunks_from (fuel : nat) (l : list string) (i k : nat)
    (c : list string) :
  chunks_from fuel l i !! k = Some c ->
  c = take 100 (drop (i + k * 100) l) /\ i + k * 100 < length l.
Proof.
  revert i k. induction fuel as [|fuel IH]; intros i k; simpl; [discriminate|].
  destruct (Nat.ltb_spec i (length l)) as [Hlt|Hge]; [|discriminate].
  destruct k as [|k]; intros H.
  - injection H as <-. rewrite slice_hundred.
    change (0 * 100) with 0. rewrite Nat.add_0_r. split; [reflexivity|lia].
  - change (chunks_from fuel l (i + 100) !! k = Some c) in H.
    apply IH in H.
    replace (i + S k * 100) with (i + 100 + k * 100) by lia. exact H.
Qed.

Lemma sizes_chunks_from (fuel : nat) (l : list string) (i : nat) :
  map (@length string) (chunks_from fuel l i) = batch_sizes fuel (length l) i.
Proof.
  revert i. induction fuel as [|fuel IH]; intros i; simpl; [reflexivity|].
  destruct (i <? length l)%nat; [|reflexivity].
  simpl. rewrite IH, slice_hundred, length_take, length_drop. reflexivity.
Qed.

(** *** getUserIds *)

Lemma elem_add_users (data : list user) (userMap : obj) (e : string * Z) :
  e ∈ add_users userMap data ->
  e ∈ userMap \/ exists u, u ∈ data /\ e = (toLowerCase (name u), id u).
Proof.
  revert userMap. unfold add_users.
  induction data as [|u data IH]; intros userMap; simpl; [auto|].
  intros [He|[u' [Hu' ->]]]%IH.
  - apply ObjFacts.elem_set in He as [He| ->]; [auto|].
    right. exists u. split; [left|reflexivity].
  - right. exists u'. split; [right; assumption|reflexivity].
Qed.

Lemma keys_add_users (data : list user) (userMap : obj) (k : string) :
  k ∈ map fst (add_users userMap data) <->
  k ∈ map fst userMap \/
  (k <> "__proto__" /\ exists u, u ∈ data /\ k = toLowerCase (name u)).
Proof.
  revert userMap. unfold add_users.
  induction data as [|u data IH]; intros userMap; simpl.
  - split; [auto|]. intros [?|[_ [u [Hu _]]]]; [assumption|inversion Hu].
  - rewrite IH, ObjFacts.keys_set. split.
    + intros [[?|[-> ?]]|[? [u' [? ?]]]]; [auto| |].
      * right. split; [assumption|]. exists u. split; [left|reflexivity].
      * right. split; [assumption|]. exists u'. split; [right; assumption|assumption].
    + intros [?|[Hk [u' [Hu' ->]]]]; [auto|].
      apply elem_of_cons in Hu' as [->|Hu']; [left; right; auto|].
      right. split; [assumption|]. eauto.
Qed.

Section Batches.
Context (up : upstream).

Lemma batch_reply_cons (log : list request)
    (c : list string) (cs : list (list string)) (i : nat) :
  batch_reply up log (c :: cs) (S i) =
  batch_reply up (log ++ [PostUsernames c]) cs i.
Proof.
  unfold batch_reply. simpl. rewrite <- app_assoc. reflexivity.
Qed.

(** One request per batch, in order, whatever the answers. *)
Lemma resolve_chunks_log (cs : list (list string))
    (userMap : obj) (log : list request) :
  (resolve_chunks up cs userMap log).2 = log ++ map PostUsernames cs.
Proof.
  revert userMap log. induction cs as [|c cs IH]; intros userMap log; simpl.
  - rewrite app_nil_r. reflexivity.
  - unfold bind, post_usernames. rewrite IH, <- app_assoc. reflexivity.
Qed.

(** Every entry of the result was written for an answered batch. *)
Lemma resolve_chunks_elem (cs : list (list string))
    (userMap : obj) (log : list request) (e : string * Z) :
  e ∈ (resolve_chunks up cs userMap log).1 ->
  e ∈ userMap \/
  exists i data u, batch_reply up log cs i = Some data /\ u ∈ data /\
                   e = (toLowerCase (name u), id u).
Proof.
  revert userMap log. induction cs as [|c cs IH]; intros userMap log; simpl.
  - auto.
  - unfold bind, post_usernames.
    intros [He|(i & data & u & Hr & Hu & ->)]%IH.
    + destruct (usernames_users up log c) as [data|] eqn:Hc; [|auto].
      apply elem_add_users in He as [He|[u [Hu ->]]]; [auto|].
      right. exists 0, data, u. unfold batch_reply. simpl.
      rewrite app_nil_r. auto.
    + right. exists (S i), data, u. rewrite batch_reply_cons. auto.
Qed.

(** Every name of an answered batch is a key of the result. *)
Lemma resolve_chunks_keys (cs : list (list string))
    (userMap : obj) (log : list request) (k : string) :
  k ∈ map fst (resolve_chunks up cs userMap log).1 <->
  k ∈ map fst userMap \/
  (k <> "__proto__" /\
   exists i data u, batch_reply up log cs i = Some data /\ u ∈ data /\
                    k = toLowerCase (name u)).
Proof.
  revert userMap log. induction cs as [|c cs IH]; intros userMap log; simpl.
  - split; [auto|]. intros [?|[_ (i & data & u & Hr & _)]]; [assumption|].
    unfold batch_reply in Hr. rewrite lookup_nil in Hr. discriminate.
  - unfold bind, post_usernames. rewrite IH. split.
    + intros [Hk|[Hp (i & data & u & Hr & Hu & ->)]].
      * destruct (usernames_users up log c) as [data|] eqn:Hc; [|auto].
        apply keys_add_users in Hk as [?|[Hp [u [Hu ->]]]]; [auto|].
        right. split; [assumption|]. exists 0, data, u.
        unfold batch_reply. simpl. rewrite app_nil_r. auto.
      * right. split; [assumption|]. exists (S i), data, u.
        rewrite batch_reply_cons. auto.
    + intros [Hk|[Hp (i & data & u & Hr & Hu & ->)]].
      * left. destruct (usernames_users up log c); [|assumption].
        apply keys_add_users. auto.
      * destruct i as [|i].
        -- left. unfold batch_reply in Hr. simpl in Hr.
           rewrite app_nil_r in Hr. rewrite Hr.
           apply keys_add_users. right. split; [assumption|]. eauto.
        -- rewrite batch_reply_cons in Hr. right. split; [assumption|].
           eauto 6.
Qed.

End Batches.

(** *** The lookup objects of the handler *)

Lemma presenceMap_of_lookup (ps : list presence) (n : Z) (p : presence) :
  presenceMap_of ps !! n = Some p -> p ∈ ps /\ userId p = n.
Proof.
  unfold presenceMap_of.
  assert (forall (m : gmap Z presence),
             fold_left (fun m p => <[userId p := p]> m) ps m !! n = Some p ->
             m !! n = Some p \/ (p ∈ ps /\ userId p = n)) as Hgen.
  { induction ps as [|q ps IH]; intros m; simpl; [auto|].
    intros [Hm|[? ?]]%IH.
    - destruct (decide (userId q = n)) as [Heq|Hne].
      + rewrite <- Heq, lookup_insert_eq in Hm. injection Hm as ->.
        right. split; [left|assumption].
      + rewrite lookup_insert_ne in Hm by assumption. auto.
    - right. split; [right; assumption|assumption]. }
  intros [Hm|?]%Hgen; [|assumption].
  rewrite lookup_empty in Hm. discriminate.
Qed.

Lemma presenceMap_of_none (ps : list presence) (n : Z) :
  (forall p, p ∈ ps -> userId p <> n) -> presenceMap_of ps !! n = None.
Proof.
  intros Hno. destruct (presenceMap_of ps !! n) as [p|] eqn:Hp; [|reflexivity].
  apply presenceMap_of_lookup in Hp as [Hin Heq]. destruct (Hno p Hin Heq).
Qed.

Lemma userIdToUsernameMap_of_lookup (userMap : obj) (n : Z) (k : string) :
  userIdToUsernameMap_of userMap !! n = Some k -> (k, n) ∈ userMap.
Proof.
  unfold userIdToUsernameMap_of, entries.
  assert (forall (acc : gmap Z string),
             fold_left (fun acc e => <[snd e := fst e]> acc) userMap acc !! n
               = Some k ->
             acc !! n = Some k \/ (k, n) ∈ userMap) as Hgen.
  { induction userMap as [|[k' n'] o IH]; intros acc; simpl; [auto|].
    intros [Hm|?]%IH; [|right; right; assumption].
    destruct (decide (n' = n)) as [->|Hne].
    - rewrite lookup_insert_eq in Hm. injection Hm as ->. right. left.
    - rewrite lookup_insert_ne in Hm by assumption. auto. }
  intros [Hm|?]%Hgen; [|assumption].
  rewrite lookup_empty in Hm. discriminate.
Qed.

Lemma userIdToUsernameMap_of_total (userMap : obj) (n : Z) (k : string) :
  (k, n) ∈ userMap -> is_Some (userIdToUsernameMap_of userMap !! n).
Proof.
  unfold userIdToUsernameMap_of, entries.
  assert (forall (acc : gmap Z string),
             is_Some (acc !! n) \/ (exists k, (k, n) ∈ userMap) ->
             is_Some (fold_left (fun acc e => <[snd e := fst e]> acc)
                        userMap acc !! n)) as Hgen.
  { induction userMap as [|[k' n'] o IH]; intros acc; simpl.
    - intros [?|[? H]]; [assumption|inversion H].
    - intros [Hs|[k0 Hin]]; apply IH.
      + left. destruct (decide (n' = n)) as [->|Hne].
        * rewrite lookup_insert_eq. eauto.
        * rewrite lookup_insert_ne by assumption. assumption.
      + apply elem_of_cons in Hin as [[= <- <-]|Hin].
        * left. rewrite lookup_insert_eq. eauto.
        * right. eauto. }
  intros H. apply Hgen. right. eauto.
Qed.

(** *** The handler, stage by stage *)

(** Name the five fields and the log that [classify] returns. *)
Ltac split_classify :=
  match goal with
  | |- context [classify ?up ?c ?p ?lg] =>
      destruct (classify up c p lg) as [[[[[?st ?mn] ?pl] ?un] ?ll] ?lg']
  | H : context [classify ?up ?c ?p ?lg] |- _ =>
      destruct (classify up c p lg) as [[[[[?st ?mn] ?pl] ?un] ?ll] ?lg']
  end.

Lemma api_status_run (up : upstream) (cookie : option string)
    (users : list string) (log : list request) :
  users <> [] ->
  exists log2,
    api_status up cookie (Some users) log =
      (Ok (for_each (user_result_of up cookie users log)
             (uniqueUsers users) log2).1,
       (for_each (user_result_of up cookie users log)
             (uniqueUsers users) log2).2) /\
    log2 = (if (0 <? length (Js.values (userMap_of up users log)))%nat
            then log_after_lookup up users log ++
                 [PostPresence (Js.values (userMap_of up users log))
                    (getHeaders cookie)]
            else log_after_lookup up users log).
Proof.
  intros Hne. unfold api_status.
  destruct users as [|u0 users]; [congruence|].
  change (length (u0 :: users) =? 0)%nat with false. cbv iota.
  set (us := u0 :: users).
  unfold user_result_of, userPresences_of, presence_reply,
    log_after_lookup, userMap_of.
  unfold bind at 1.
  destruct (getUserIds up (uniqueUsers us) log) as [userMap log1]. simpl.
  destruct (0 <? length (Js.values userMap))%nat.
  - eexists. split; [|reflexivity].
    unfold bind, post_presence, ret.
    destruct (for_each _ _ _) as [rs lg]. reflexivity.
  - eexists. split; [|reflexivity].
    unfold bind, ret.
    destruct (for_each _ _ _) as [rs lg]. reflexivity.
Qed.

(** One record per deduplicated username: the record at each position is
    what the loop body yields for the username at that position. *)
Lemma api_status_results (up : upstream) (cookie : option string)
    (users : list string) (log : list request) :
  users <> [] ->
  exists results,
    (api_status up cookie (Some users) log).1 = Ok results /\
    Forall2 (fun u r => exists lg,
                 r = (user_result_of up cookie users log u lg).1)
            (uniqueUsers users) results.
Proof.
  intros Hne. destruct (api_status_run up cookie users log Hne) as [log2 [-> _]].
  eexists. split; [reflexivity|]. apply for_each_results.
Qed.

End ServerFacts.

(** ** The place resolver and the classification of presences *)

Module Classification.
Import Js Net Server Spec Sample ServerFacts.

(** The loop body on a username that resolves to the number [n]: the
    fields come from [classify] on the presence entry stored under [n]. *)
Lemma user_result_resolved (up : upstream) (cookie : option string)
    (userMap : obj) (presenceMap : gmap Z presence) (names : gmap Z string)
    (u : string) (n : Z) (lg : list request) :
  Js.get userMap (toLowerCase u) = Own n -> n <> 0%Z ->
  user_result up cookie userMap presenceMap names u lg =
    (let '(status, mapName, placeId, universeId, lastLocation) :=
       (classify up cookie (presenceMap !! n) lg).1 in
     Status (display_name names (Own n) u) (Own n) status
            placeId universeId mapName lastLocation,
     (classify up cookie (presenceMap !! n) lg).2).
Proof.
  intros Hget Hn. unfold user_result. rewrite Hget. simpl.
  destruct (Z.eqb_spec n 0) as [?|_]; [congruence|]. simpl.
  unfold bind. split_classify. reflexivity.
Qed.

(** The record at position [i] of a successful answer is the loop body's
    result for the username at position [i]. *)
Lemma result_at (up : upstream) (cookie : option string)
    (users : list string) (log : list request) (results : list result)
    (i : nat) (u : string) :
  (api_status up cookie (Some users) log).1 = Ok results ->
  uniqueUsers users !! i = Some u ->
  exists lg, results !! i = Some (user_result_of up cookie users log u lg).1.
Proof.
  intros Hok Hu. destruct users as [|u0 users]; [discriminate|].
  destruct (api_status_results up cookie (u0 :: users) log ltac:(discriminate))
    as (rs & Hrs & Hall).
  rewrite Hrs in Hok. injection Hok as <-.
  destruct (Forall2_lookup_l _ _ _ _ _ Hall Hu) as (r & Hr & lg & ->).
  eauto.
Qed.

(** C7: the place resolver answers ["Unknown Place"] without sending a
    request when its identifier is falsy, and answers the same sentinel when
    the lookup throws or its body is empty, so the three cases look alike
    to the caller. *)
Theorem getGameInfo_unknown_place (up : upstream) (i : jsval)
    (cookie : option string) (log : list request) :
  (truthy i = false ->
   getGameInfo up i cookie log = ("Unknown Place", log)) /\
  (truthy i = true ->
   place_details up log i (getHeaders cookie) = None \/
   place_details up log i (getHeaders cookie) = Some [] ->
   (getGameInfo up i cookie log).1 = "Unknown Place").
Proof.
  unfold getGameInfo. split.
  - intros ->. reflexivity.
  - intros -> Hfail. simpl. unfold bind, get_place_details, ret.
    destruct Hfail as [-> | ->]; reflexivity.
Qed.

Lemma getGameInfo_unknown_place_witness :
  getGameInfo roblox JNull None [] = ("Unknown Place", []) /\
  (getGameInfo roblox_lookup_only (JNum 10) None []).1 = "Unknown Place" /\
  (getGameInfo roblox (JNum 10) None []).1 = "Unknown Place".
Proof.
  split; [|split].
  - apply (getGameInfo_unknown_place roblox JNull None []). reflexivity.
  - apply (getGameInfo_unknown_place roblox_lookup_only (JNum 10) None []);
      [reflexivity|left; reflexivity].
  - apply (getGameInfo_unknown_place roblox (JNum 10) None []);
      [reflexivity|right; reflexivity].
Defined.

(** C10: a presence entry whose [userPresenceType] lies outside 0..3 leaves
    the defaults in place, status ["Offline"] and map name ["Offline"],
    while [placeId], [universeId] and [lastLocation] are copied from the
    entry into the record. *)
Theorem presence_type_outside_enum (up : upstream) (cookie : option string)
    (users : list string) (log : list request) (results : list result)
    (i : nat) (u : string) (n : Z) (p : presence) :
  (api_status up cookie (Some users) log).1 = Ok results ->
  uniqueUsers users !! i = Some u ->
  Js.get (userMap_of up users log) (toLowerCase u) = Own n -> n <> 0%Z ->
  presenceMap_of (userPresences_of up cookie users log) !! n = Some p ->
  (userPresenceType p < 0 \/ 3 < userPresenceType p)%Z ->
  exists d,
    results !! i =
      Some (Status d (Own n) "Offline" (placeId p) (universeId p)
                   "Offline" (lastLocation p)).
Proof.
  intros Hok Hu Hget Hn Hp Hty.
  destruct (result_at up cookie users log results i u Hok Hu) as [lg ->].
  unfold user_result_of.
  rewrite (user_result_resolved _ _ _ _ _ _ _ _ Hget Hn), Hp. simpl.
  destruct (Z.eqb_spec (userPresenceType p) 3) as [?|_]; [lia|].
  destruct (Z.eqb_spec (userPresenceType p) 2) as [?|_]; [lia|].
  destruct (Z.eqb_spec (userPresenceType p) 1) as [?|_]; [lia|].
  simpl. eauto.
Qed.

Lemma presence_type_outside_enum_witness :
  exists d,
    [ Status "bob" (Own 1) "In Game" (JNum 10) (JNum 77) "Fish It"
             (JStr "Fish It");
      Status "carol" (Own 3) "Offline" (JNum 10) JNull "Offline"
             (JStr "Website") ] !! 1%nat =
    Some (Status d (Own 3) "Offline" (JNum 10) JNull "Offline"
                 (JStr "Website")).
Proof.
  apply (presence_type_outside_enum roblox None ["Bob"; "Carol"] []
           _ 1%nat "Carol" 3%Z
           (mkPresence 3 4 (JNum 10) JNull (JStr "Website"))).
  - vm_compute. reflexivity.
  - reflexivity.
  - vm_compute. reflexivity.
  - discriminate.
  - vm_compute. reflexivity.
  - right. reflexivity.
Defined.

(** On answers that respect the contract: a user whose ID was resolved
    gets status ["Offline"] and map name ["Offline"] when the bulk presence
    call throws, and when the answer holds no entry for that ID. *)
Theorem no_presence_means_offline (up : upstream) (cookie : option string)
    (users : list string) (log : list request) (results : list result)
    (i : nat) (u : string) (n : Z) :
  (api_status up cookie (Some users) log).1 = Ok results ->
  uniqueUsers users !! i = Some u ->
  Js.get (userMap_of up users log) (toLowerCase u) = Own n -> n <> 0%Z ->
  presence_reply up cookie users log = None \/
  (forall p, p ∈ userPresences_of up cookie users log -> userId p <> n) ->
  exists d,
    results !! i =
      Some (Status d (Own n) "Offline" JNull JNull "Offline" (JStr "Offline")).
Proof.
  intros Hok Hu Hget Hn Hnone.
  destruct (result_at up cookie users log results i u Hok Hu) as [lg ->].
  unfold user_result_of.
  rewrite (user_result_resolved _ _ _ _ _ _ _ _ Hget Hn).
  assert (presenceMap_of (userPresences_of up cookie users log) !! n = None)
    as ->.
  { apply presenceMap_of_none. destruct Hnone as [Hfail|Hno]; [|exact Hno].
    unfold userPresences_of. rewrite Hfail.
    destruct (0 <? _)%nat; intros p Hp; inversion Hp. }
  simpl. eauto.
Qed.

Lemma no_presence_means_offline_witness :
  (exists d,
     [ Status "bob" (Own 1) "Offline" JNull JNull "Offline" (JStr "Offline") ]
       !! 0%nat =
     Some (Status d (Own 1) "Offline" JNull JNull "Offline" (JStr "Offline")))
  /\
  (exists d,
     [ Status "dave" (Own 4) "Offline" JNull JNull "Offline" (JStr "Offline") ]
       !! 0%nat =
     Some (Status d (Own 4) "Offline" JNull JNull "Offline" (JStr "Offline"))).
Proof.
  split.
  - apply (no_presence_means_offline roblox_lookup_only None ["Bob"] []
             _ 0%nat "Bob" 1%Z).
    + vm_compute. reflexivity.
    + reflexivity.
    + vm_compute. reflexivity.
    + discriminate.
    + left. reflexivity.
  - apply (no_presence_means_offline roblox None ["Dave"] []
             _ 0%nat "Dave" 4%Z).
    + vm_compute. reflexivity.
    + reflexivity.
    + vm_compute. reflexivity.
    + discriminate.
    + right. vm_compute. intros p Hp. inversion Hp.
Defined.

(** C2, as amended: for a resolved user whose presence entry has type 3 the
    status is ["In Game"].  With a truthy [placeId], one place lookup is
    sent for [universeId || placeId]; when the answer is non-empty, the
    map name is the name of its first place if that name is non-empty, and
    ["Unknown Place"] if it is empty.  With no [placeId], the map name is
    ["In Game (placeId hidden)"], and no place lookup is sent when the
    [universeId] is falsy too. *)
Theorem in_game_map_name (up : upstream) (cookie : option string)
    (userMap : obj) (presenceMap : gmap Z presence) (names : gmap Z string)
    (u : string) (n : Z) (p : presence) (log : list request) :
  Js.get userMap (toLowerCase u) = Own n -> n <> 0%Z ->
  presenceMap !! n = Some p ->
  userPresenceType p = 3%Z ->
  exists d mapName log',
    user_result up cookie userMap presenceMap names u log =
      (Status d (Own n) "In Game" (placeId p) (universeId p) mapName
              (lastLocation p), log') /\
    (truthy (placeId p) = true ->
     log' = log ++ [GetPlaceDetails (or_else (universeId p) (placeId p))
                      (getHeaders cookie)] /\
     forall pl rest,
       place_details up log (or_else (universeId p) (placeId p))
         (getHeaders cookie) = Some (pl :: rest) ->
       mapName = if String.eqb (placeName pl) "" then "Unknown Place"
                 else placeName pl) /\
    (truthy (placeId p) = false ->
     mapName = "In Game (placeId hidden)" /\
     (truthy (universeId p) = false -> log' = log)).
Proof.
  intros Hget Hn Hp Hty.
  rewrite (user_result_resolved _ _ _ _ _ _ _ _ Hget Hn), Hp.
  unfold classify. rewrite Hty. simpl. unfold bind.
  destruct (getGameInfo up (or_else (universeId p) (placeId p)) cookie log)
    as [mn lg'] eqn:Hg. simpl.
  eexists _, _, _. split; [reflexivity|].
  unfold getGameInfo, or_else in *. split.
  - intros Hpl. rewrite Hpl. simpl.
    assert (truthy (if truthy (universeId p) then universeId p else placeId p)
            = true) as Ht.
    { destruct (truthy (universeId p)) eqn:Hun; assumption. }
    rewrite Ht in Hg. simpl in Hg.
    unfold bind, get_place_details, ret in Hg. injection Hg as <- <-.
    split; [reflexivity|].
    intros pl rest ->. reflexivity.
  - intros Hpl. rewrite Hpl. simpl. split; [reflexivity|].
    intros Hun. rewrite Hun, Hpl in Hg. simpl in Hg.
    unfold ret in Hg. congruence.
Qed.

Lemma in_game_map_name_witness :
  let p := mkPresence 1 3 (JNum 10) (JNum 77) (JStr "Fish It") in
  let q := mkPresence 5 3 JNull JNull (JStr "") in
  (exists d mapName log',
     user_result roblox None [("bob", 1%Z)] (presenceMap_of presence_table) ∅
       "Bob" [] =
       (Status d (Own 1) "In Game" (placeId p) (universeId p) mapName
               (lastLocation p), log') /\
     (truthy (placeId p) = true ->
      log' = [] ++ [GetPlaceDetails (or_else (universeId p) (placeId p))
                      (getHeaders None)] /\
      forall pl rest,
        place_details roblox [] (or_else (universeId p) (placeId p))
          (getHeaders None) = Some (pl :: rest) ->
        mapName = if String.eqb (placeName pl) "" then "Unknown Place"
                  else placeName pl) /\
     (truthy (placeId p) = false ->
      mapName = "In Game (placeId hidden)" /\
      (truthy (universeId p) = false -> log' = []))) /\
  (exists d mapName log',
     user_result roblox None [("erin", 5%Z)] (presenceMap_of [q]) ∅
       "Erin" [] =
       (Status d (Own 5) "In Game" (placeId q) (universeId q) mapName
               (lastLocation q), log') /\
     (truthy (placeId q) = true ->
      log' = [] ++ [GetPlaceDetails (or_else (universeId q) (placeId q))
                      (getHeaders None)] /\
      forall pl rest,
        place_details roblox [] (or_else (universeId q) (placeId q))
          (getHeaders None) = Some (pl :: rest) ->
        mapName = if String.eqb (placeName pl) "" then "Unknown Place"
                  else placeName pl) /\
     (truthy (placeId q) = false ->
      mapName = "In Game (placeId hidden)" /\
      (truthy (universeId q) = false -> log' = []))).
Proof.
  split.
  - apply (in_game_map_name roblox None [("bob", 1%Z)]
             (presenceMap_of presence_table) ∅ "Bob" 1%Z
             (mkPresence 1 3 (JNum 10) (JNum 77) (JStr "Fish It")) []).
    + reflexivity.
    + discriminate.
    + vm_compute. reflexivity.
    + reflexivity.
  - apply (in_game_map_name roblox None [("erin", 5%Z)]
             (presenceMap_of [mkPresence 5 3 JNull JNull (JStr "")]) ∅
             "Erin" 5%Z (mkPresence 5 3 JNull JNull (JStr "")) []).
    + reflexivity.
    + discriminate.
    + vm_compute. reflexivity.
    + reflexivity.
Defined.

(** C2 as stated fails: Alice's presence entry has type 3 and no [placeId],
    yet a place lookup is sent (for her [universeId]) before the map name
    is set to ["In Game (placeId hidden)"]. *)
Lemma hidden_place_lookup_is_sent :
  let p := mkPresence 2 3 JNull (JNum 77) (JStr "") in
  presenceMap_of (userPresences_of roblox None ["alice"] []) !! 2%Z = Some p /\
  userPresenceType p = 3%Z /\
  truthy (placeId p) = false /\
  api_status roblox None (Some ["alice"]) [] =
    (Ok [ Status "alice" (Own 2) "In Game" JNull (JNum 77)
                 "In Game (placeId hidden)" (JStr "") ],
     [ PostUsernames ["alice"]; PostPresence [2%Z] [];
       GetPlaceDetails (JNum 77) [] ]).
Proof. vm_compute. repeat split. Qed.

End Classification.

(** ** The username resolver *)

Module Resolver.
Import Js Net Server Spec Sample ServerFacts.

Lemma getUserIds_resolve_chunks (up : upstream) (usernames : list string)
    (log : list request) :
  getUserIds up usernames log = resolve_chunks up (chunks usernames) [] log.
Proof.
  unfold getUserIds. destruct usernames; reflexivity.
Qed.

(** On answers that respect the contract: the usernames are cut into
    consecutive batches of at most 100; one bulk lookup is sent per batch,
    in order, whatever the answers (250 usernames give three, of sizes 100,
    100 and 50); every entry of the resulting mapping was written for a
    batch that was answered, under the lower-cased name of the answer, and
    every name of an answered batch other than [__proto__] is a key of the
    mapping; the usernames of a batch whose call throws are absent from
    the mapping unless the answer to another batch carries the same
    lower-cased name. *)
Theorem getUserIds_batches (up : upstream) (usernames : list string)
    (log : list request) :
  let cs := chunks usernames in
  let userMap := (getUserIds up usernames log).1 in
  concat cs = usernames /\
  (forall k c, cs !! k = Some c ->
     c = take 100 (drop (k * 100) usernames) /\ k * 100 < length usernames) /\
  (getUserIds up usernames log).2 = log ++ map PostUsernames cs /\
  (length usernames = 250 -> map (@length string) cs = [100; 100; 50]) /\
  (forall k v, get_own userMap k = Some v ->
     exists i data w, batch_reply up log cs i = Some data /\ w ∈ data /\
                      k = toLowerCase (name w) /\ v = id w) /\
  (forall i data w, batch_reply up log cs i = Some data -> w ∈ data ->
     toLowerCase (name w) <> "__proto__" ->
     is_Some (get_own userMap (toLowerCase (name w)))) /\
  (forall j c u, cs !! j = Some c -> batch_reply up log cs j = None -> u ∈ c ->
     (forall i data w, batch_reply up log cs i = Some data -> w ∈ data ->
        toLowerCase (name w) <> toLowerCase u) ->
     get_own userMap (toLowerCase u) = None).
Proof.
  intros cs userMap. subst cs userMap.
  rewrite getUserIds_resolve_chunks.
  assert (forall k v,
             get_own (resolve_chunks up (chunks usernames) [] log).1 k = Some v ->
             exists i data w,
               batch_reply up log (chunks usernames) i = Some data /\
               w ∈ data /\ k = toLowerCase (name w) /\ v = id w) as Horigin.
  { intros k v Hk%ObjFacts.get_own_elem.
    apply resolve_chunks_elem in Hk as [Hk|(i & data & w & Hr & Hw & [= -> ->])].
    - inversion Hk.
    - exists i, data, w. auto. }
  split; [|split; [|split; [|split; [|split; [|split]]]]].
  - unfold chunks. rewrite concat_chunks_from by lia. reflexivity.
  - intros k c Hc. apply lookup_chunks_from in Hc. exact Hc.
  - apply resolve_chunks_log.
  - intros Hlen. unfold chunks. rewrite sizes_chunks_from, Hlen. reflexivity.
  - exact Horigin.
  - intros i data w Hr Hw Hp. apply ObjFacts.get_own_is_Some.
    apply resolve_chunks_keys. right. split; [assumption|].
    exists i, data, w. auto.
  - intros j c u _ _ _ Hother.
    destruct (get_own _ (toLowerCase u)) as [v|] eqn:Hv; [|reflexivity].
    apply Horigin in Hv as (i & data & w & Hr & Hw & Hk & _).
    destruct (Hother i data w Hr Hw). symmetry. exact Hk.
Qed.

(** 250 generated names against the sample directory, and the two batches
    of [bob_twice] when the service is down for the second one. *)
Lemma getUserIds_batches_witness :
  map (@length string) (chunks (numbered_names 0 250)) = [100; 100; 50] /\
  is_Some (get_own (getUserIds roblox_second_batch_down bob_twice []).1
             (toLowerCase "Bob")) /\
  get_own (getUserIds roblox_second_batch_down
             (numbered_names 0 100 ++ ["Alice"]) []).1
          (toLowerCase "Alice") = None.
Proof.
  split; [|split].
  - destruct (getUserIds_batches roblox (numbered_names 0 250) [])
      as (_ & _ & _ & Hsizes & _).
    apply Hsizes. reflexivity.
  - destruct (getUserIds_batches roblox_second_batch_down bob_twice [])
      as (_ & _ & _ & _ & _ & Hmerged & _).
    apply (Hmerged 0%nat [mkUser "Bob" 1] (mkUser "Bob" 1)).
    + vm_compute. reflexivity.
    + left.
    + discriminate.
  - destruct (getUserIds_batches roblox_second_batch_down
                (numbered_names 0 100 ++ ["Alice"]) [])
      as (_ & _ & _ & _ & _ & _ & Habsent).
    apply (Habsent 1%nat ["Alice"] "Alice").
    + vm_compute. reflexivity.
    + vm_compute. reflexivity.
    + left.
    + intros [|[|i]] data w Hr Hw.
      * vm_compute in Hr. injection Hr as <-. inversion Hw.
      * vm_compute in Hr. discriminate.
      * vm_compute in Hr. discriminate.
Defined.

(** C3 as stated fails: the call for the second batch of [bob_twice]
    throws, yet its only username, [bob], is in the mapping, because the
    answer to the first batch carried [Bob]. *)
Lemma failed_batch_username_still_mapped :
  uniqueUsers bob_twice = bob_twice /\
  chunks bob_twice !! 1%nat = Some ["bob"] /\
  batch_reply roblox_second_batch_down [] (chunks bob_twice) 1 = None /\
  Js.get (getUserIds roblox_second_batch_down bob_twice []).1
         (toLowerCase "bob") = Own 1.
Proof. vm_compute. repeat split. Qed.

End Resolver.

(** ** The handler of POST /api/status *)

Module Handler.
Import Js Net Server Spec Sample ServerFacts.


(** A username that is neither an own key of [userMap] nor a name found on
    [Object.prototype] gets the error record, and the loop goes on. *)
Lemma unresolved_username_not_found (up : upstream) (cookie : option string)
    (userMap : obj) (presenceMap : gmap Z presence) (names : gmap Z string)
    (u : string) (lg : list request) :
  get_own userMap (toLowerCase u) = None ->
  inherited (toLowerCase u) = false ->
  user_result up cookie userMap presenceMap names u lg =
    (NotFound u "Pengguna tidak ditemukan di Roblox.", lg).
Proof.
  intros Hown Hinh. unfold user_result, Js.get. rewrite Hown, Hinh.
  reflexivity.
Qed.

Lemma uniqueUsers_whitespace (users : list string) :
  Forall (fun u => whitespace_only u = true) users -> uniqueUsers users = [].
Proof.
  intros Hws. unfold uniqueUsers.
  assert (filter (fun u => u <> "") (map trim users) = []) as ->; [|reflexivity].
  induction Hws as [|u users Hu _ IH]; [reflexivity|].
  simpl. apply JsFacts.trim_empty_iff in Hu.
  rewrite filter_cons_False by (intros Hne; apply Hne, Hu). exact IH.
Qed.




(** C4, as amended: an absent or empty input array is rejected with status
    400 before any request is sent upstream; a non-empty array of
    white-space-only usernames sends no request upstream either and is
    answered with status 200 and an empty array of records. *)
Theorem empty_input_sends_nothing (up : upstream) (cookie : option string)
    (log : list request) :
  api_status up cookie None log = (BadRequest "Daftar pengguna kosong.", log) /\
  api_status up cookie (Some []) log =
    (BadRequest "Daftar pengguna kosong.", log) /\
  status_code (BadRequest "Daftar pengguna kosong.") = 400 /\
  (forall users,
     users <> [] -> Forall (fun u => whitespace_only u = true) users ->
     api_status up cookie (Some users) log = (Ok [], log)) /\
  status_code (Ok []) = 200.
Proof.
  split; [reflexivity|]. split; [reflexivity|]. split; [reflexivity|].
  split; [|reflexivity].
  intros users Hne Hws. unfold api_status.
  destruct users as [|u0 users]; [congruence|].
  change (length (u0 :: users) =? 0)%nat with false. cbv iota.
  rewrite (uniqueUsers_whitespace _ Hws). reflexivity.
Qed.

Lemma empty_input_sends_nothing_witness :
  api_status roblox None (Some [" "; "   "; ""]) [] = (Ok [], []).
Proof.
  destruct (empty_input_sends_nothing roblox None []) as (_ & _ & _ & H & _).
  apply H; [discriminate|].
  repeat constructor.
Defined.

(** C4 as stated fails: an array holding one blank username is not rejected;
    the answer has status 200. *)
Lemma whitespace_only_input_not_rejected :
  whitespace_only " " = true /\
  api_status roblox None (Some [" "]) [] = (Ok [], []) /\
  status_code (api_status roblox None (Some [" "]) []).1 = 200.
Proof. vm_compute. repeat split. Qed.

(** C6 at the failing input: no account is called [constructor], so the
    resolver's mapping has no such key; the record for that username is
    nevertheless a status record, with status ["Offline"] and no error
    marker, because the read [userMap["constructor"]] finds the function
    inherited from [Object.prototype]. *)
Theorem unresolved_constructor_reported_offline :
  get_own (userMap_of roblox ["eve"; "constructor"] []) "constructor" = None /\
  api_status roblox None (Some ["eve"; "constructor"]) [] =
    (Ok [ NotFound "eve" "Pengguna tidak ditemukan di Roblox.";
          Status "constructor" (Inherited "constructor") "Offline"
                 JNull JNull "Offline" (JStr "Offline") ],
     [ PostUsernames ["eve"; "constructor"] ]).
Proof. vm_compute. split; reflexivity. Qed.





(** C9, as amended: for a username that resolves to the user ID [n], the
    reverse mapping holds under [n] a key [k] of the resolver's mapping,
    that is the lower-cased name of an upstream entry with that ID; the
    [username] field of the record is [k], or the input username when [k]
    is empty. *)
Theorem displayed_username_is_mapping_key (up : upstream)
    (cookie : option string) (users : list string) (log : list request)
    (results : list result) (i : nat) (u : string) (r : result) (n : Z) :
  (api_status up cookie (Some users) log).1 = Ok results ->
  uniqueUsers users !! i = Some u ->
  results !! i = Some r ->
  result_userId r = Some (Own n) ->
  exists k j data w,
    userIdToUsernameMap_of (userMap_of up users log) !! n = Some k /\
    (k, n) ∈ entries (userMap_of up users log) /\
    batch_reply up log (chunks (uniqueUsers users)) j = Some data /\
    w ∈ data /\ k = toLowerCase (name w) /\ n = id w /\
    result_username r = (if String.eqb k "" then u else k).
Proof.
  intros Hok Hu Hr Hid.
  destruct (Classification.result_at up cookie users log results i u Hok Hu)
    as [lg Hr'].
  rewrite Hr in Hr'. injection Hr' as ->.
  unfold user_result_of, user_result in *.
  set (userMap := userMap_of up users log) in *.
  destruct (Js.get userMap (toLowerCase u)) as [m| |] eqn:Hget;
    simpl in Hid |- *.
  - destruct (Z.eqb_spec m 0) as [->|Hm]; simpl in *; [discriminate|].
    unfold bind in *. split_classify.
    simpl in *. injection Hid as ->.
    assert ((toLowerCase u, n) ∈ userMap) as Helem.
    { apply ObjFacts.get_own_elem. unfold Js.get in Hget.
      destruct (get_own userMap (toLowerCase u)) as [v|];
        [congruence|destruct (inherited _); discriminate]. }
    destruct (userIdToUsernameMap_of_total _ _ _ Helem) as [k Hk].
    pose proof (userIdToUsernameMap_of_lookup _ _ _ Hk) as Hkn.
    assert (exists j data w,
               batch_reply up log (chunks (uniqueUsers users)) j = Some data /\
               w ∈ data /\ (k, n) = (toLowerCase (name w), id w))
      as (j & data & w & Hrep & Hw & [= -> ->]).
    { subst userMap. unfold userMap_of in Hkn.
      rewrite Resolver.getUserIds_resolve_chunks in Hkn.
      apply resolve_chunks_elem in Hkn as [Hnil|?]; [inversion Hnil|assumption]. }
    exists (toLowerCase (name w)), j, data, w.
    unfold display_name. simpl. rewrite Hk. auto 10.
  - discriminate.
  - discriminate.
Qed.

Lemma displayed_username_is_mapping_key_witness :
  exists k j data w,
    userIdToUsernameMap_of (userMap_of roblox ["BOB"] []) !! 1%Z = Some k /\
    (k, 1%Z) ∈ entries (userMap_of roblox ["BOB"] []) /\
    batch_reply roblox [] (chunks (uniqueUsers ["BOB"])) j = Some data /\
    w ∈ data /\ k = toLowerCase (name w) /\ 1%Z = id w /\
    result_username
      (Status "bob" (Own 1) "In Game" (JNum 10) (JNum 77) "Fish It"
              (JStr "Fish It")) =
    (if String.eqb k "" then "BOB" else k).
Proof.
  apply (displayed_username_is_mapping_key roblox None ["BOB"] []
           [ Status "bob" (Own 1) "In Game" (JNum 10) (JNum 77) "Fish It"
                    (JStr "Fish It") ] 0%nat "BOB").
  - vm_compute. reflexivity.
  - reflexivity.
  - reflexivity.
  - reflexivity.
Defined.

(** C9 as stated fails: the upstream entry for the input [BOB] carries the
    canonical name [Bob], yet the record shows [bob], which is neither the
    canonical casing nor the input. *)
Lemma displayed_username_is_lower_cased :
  usernames_users roblox [] ["BOB"] = Some [mkUser "Bob" 1] /\
  (api_status roblox None (Some ["BOB"]) []).1 =
    Ok [ Status "bob" (Own 1) "In Game" (JNum 10) (JNum 77) "Fish It"
                (JStr "Fish It") ] /\
  "bob" <> "Bob" /\ "bob" <> "BOB".
Proof. vm_compute. repeat split; discriminate. Qed.

End Handler.

(** ** More on strings and object literals *)

Module MoreJsFacts.
Import Js.

Lemma lower_char_idempotent (c : ascii) :
  lower_char (lower_char c) = lower_char c.
Proof. destruct c as [[] [] [] [] [] [] [] []]; reflexivity. Qed.

Lemma toLowerCase_idempotent (s : string) :
  toLowerCase (toLowerCase s) = toLowerCase s.
Proof.
  induction s as [|c r IH]; simpl; [reflexivity|].
  rewrite lower_char_idempotent, IH. reflexivity.
Qed.

Lemma trimEnd_idempotent (s : string) : trimEnd (trimEnd s) = trimEnd s.
Proof.
  induction s as [|c r IH]; simpl; [reflexivity|].
  destruct (trimEnd r) as [|c' r'] eqn:Hr.
  - destruct (is_space c) eqn:Hc; simpl; [reflexivity|]. rewrite Hc. reflexivity.
  - simpl in *. rewrite IH. reflexivity.
Qed.

(** [trimEnd] keeps a first character that is not white space. *)
Lemma trimStart_trimEnd_fixed (s : string) :
  trimStart s = s -> trimStart (trimEnd s) = trimEnd s.
Proof.
  destruct s as [|c r]; simpl; [reflexivity|].
  destruct (is_space c) eqn:Hc.
  - intros Heq. exfalso.
    assert (String.length (trimStart r) <= String.length r) as Hle.
    { clear. induction r as [|c r IH]; simpl; [lia|].
      destruct (is_space c); simpl; lia. }
    rewrite Heq in Hle. simpl in Hle. lia.
  - intros _. destruct (trimEnd r); simpl; rewrite Hc; reflexivity.
Qed.

Lemma trimStart_idempotent (s : string) : trimStart (trimStart s) = trimStart s.
Proof.
  induction s as [|c r IH]; simpl; [reflexivity|].
  destruct (is_space c) eqn:Hc; [exact IH|]. simpl. rewrite Hc. reflexivity.
Qed.

(** Trimming twice is trimming once. *)
Lemma trim_idempotent (s : string) : trim (trim s) = trim s.
Proof.
  unfold trim.
  rewrite (trimStart_trimEnd_fixed (trimStart s) (trimStart_idempotent s)).
  apply trimEnd_idempotent.
Qed.

Lemma get_own_replace_own (o : obj) (k : string) (v : Z) (k' : string) :
  is_Some (get_own o k) ->
  get_own (replace_own o k v) k' =
    if String.eqb k' k then Some v else get_own o k'.
Proof.
  induction o as [|[k1 v1] o IH]; simpl; [intros [? [=]]|].
  destruct (String.eqb_spec k k1) as [->|Hne]; simpl.
  - intros _. destruct (String.eqb k' k1); reflexivity.
  - intros Hs. rewrite (IH Hs).
    destruct (String.eqb_spec k' k1) as [->|?]; [|reflexivity].
    destruct (String.eqb_spec k1 k); [congruence|reflexivity].
Qed.

Lemma get_own_insert_index (o : obj) (n : N) (k : string) (v : Z) (k' : string) :
  get_own o k = None ->
  get_own (insert_index o n k v) k' =
    if String.eqb k' k then Some v else get_own o k'.
Proof.
  induction o as [|[k1 v1] o IH]; simpl; [reflexivity|].
  destruct (String.eqb_spec k k1) as [->|Hne]; [discriminate|]. intros Hnone.
  assert (get_own ((k, v) :: (k1, v1) :: o) k' =
          if String.eqb k' k then Some v
          else if String.eqb k' k1 then Some v1 else get_own o k') as Hfront
    by reflexivity.
  destruct (array_index k1) as [n1|]; [destruct (n1 <? n)%N|]; try exact Hfront.
  simpl. rewrite (IH Hnone).
  destruct (String.eqb_spec k' k1) as [->|?]; [|reflexivity].
  destruct (String.eqb_spec k1 k); [congruence|reflexivity].
Qed.

Lemma get_own_app_new (o : obj) (k : string) (v : Z) (k' : string) :
  get_own o k = None ->
  get_own (o ++ [(k, v)]) k' =
    if String.eqb k' k then Some v else get_own o k'.
Proof.
  induction o as [|[k1 v1] o IH]; simpl; [reflexivity|].
  destruct (String.eqb_spec k k1) as [->|Hne]; [discriminate|]. intros Hnone.
  rewrite (IH Hnone).
  destruct (String.eqb_spec k' k1) as [->|?]; [|reflexivity].
  destruct (String.eqb_spec k1 k); [congruence|reflexivity].
Qed.

(** Reading after writing: an assignment is seen under its own key, unless
    that key is [__proto__], and under no other key. *)
Lemma get_own_set (o : obj) (k : string) (v : Z) (k' : string) :
  get_own (Js.set o k v) k' =
    if String.eqb k' k && negb (String.eqb k "__proto__") then Some v
    else get_own o k'.
Proof.
  unfold Js.set. destruct (String.eqb k "__proto__").
  - rewrite andb_false_r. reflexivity.
  - rewrite andb_true_r. destruct (get_own o k) as [v0|] eqn:Hk.
    + apply get_own_replace_own. rewrite Hk. eauto.
    + destruct (array_index k).
      * apply get_own_insert_index, Hk.
      * apply get_own_app_new, Hk.
Qed.

Lemma keys_insert_index (o : obj) (n : N) (k : string) (v : Z) :
  map fst (insert_index o n k v) ≡ₚ k :: map fst o.
Proof.
  induction o as [|[k1 v1] o IH]; simpl; [reflexivity|].
  destruct (array_index k1) as [n1|]; [destruct (n1 <? n)%N|]; simpl;
    try reflexivity.
  rewrite IH. apply Permutation_swap.
Qed.

(** Assignments keep the own keys pairwise distinct. *)
Lemma NoDup_keys_set (o : obj) (k : string) (v : Z) :
  NoDup (map fst o) -> NoDup (map fst (Js.set o k v)).
Proof.
  intros Hnd. unfold Js.set. destruct (String.eqb k "__proto__"); [exact Hnd|].
  destruct (get_own o k) as [v0|] eqn:Hk.
  - rewrite ObjFacts.keys_replace_own. exact Hnd.
  - assert (k ∉ map fst o) as Hfresh.
    { intros Hin%ObjFacts.get_own_is_Some. rewrite Hk in Hin.
      destruct Hin as [? [=]]. }
    destruct (array_index k).
    + rewrite keys_insert_index. constructor; assumption.
    + rewrite map_app. simpl. apply NoDup_app. split; [exact Hnd|].
      split; [|apply NoDup_singleton].
      intros x Hx Hx'. apply list_elem_of_singleton in Hx'. subst. auto.
Qed.

End MoreJsFacts.

(** ** More on the helpers of server.js *)

Module MoreResolver.
Import Js Net Server Spec Derived Sample ServerFacts MoreJsFacts.

(** X1: [getHeaders] gives no header for an absent or empty cookie, and
    otherwise a single [Cookie] header whose value is [.ROBLOSECURITY=]
    followed by the cookie; two cookies that give the same headers are the
    same cookie. *)
Theorem getHeaders_single_cookie (cookie : option string) :
  (getHeaders cookie = [] <-> cookie = None \/ cookie = Some "") /\
  length (getHeaders cookie) <= 1 /\
  (forall kv, kv ∈ getHeaders cookie ->
     kv.1 = "Cookie" /\
     exists c, cookie = Some c /\ c <> "" /\
               kv.2 = String.append ".ROBLOSECURITY=" c) /\
  (forall c1 c2, c1 <> "" ->
     getHeaders (Some c1) = getHeaders (Some c2) -> c1 = c2).
Proof.
  split; [|split; [|split]].
  - destruct cookie as [c|]; simpl; [|tauto].
    destruct (String.eqb_spec c "") as [->|Hne]; [tauto|].
    split; [discriminate|]. intros [?|[= ?]]; [discriminate|contradiction].
  - destruct cookie as [c|]; simpl; [|lia].
    destruct (String.eqb c ""); simpl; lia.
  - intros kv Hkv. destruct cookie as [c|]; simpl in Hkv; [|inversion Hkv].
    destruct (String.eqb_spec c "") as [->|Hne]; [inversion Hkv|].
    apply list_elem_of_singleton in Hkv as ->. simpl. eauto.
  - intros c1 c2 Hne Heq. simpl in Heq.
    destruct (String.eqb_spec c1 "") as [?|_]; [contradiction|].
    destruct (String.eqb c2 ""); [discriminate|].
    injection Heq as Heq. exact Heq.
Qed.

Lemma length_chunks_from (fuel : nat) (l : list string) (i : nat) :
  length l - i <= fuel ->
  length (chunks_from fuel l i) = (length l - i + 99) / 100.
Proof.
  revert i. induction fuel as [|fuel IH]; intros i Hf; cbn [chunks_from].
  - replace (length l - i + 99) with 99 by lia. reflexivity.
  - destruct (Nat.ltb_spec i (length l)) as [Hlt|Hge]; cbn [length].
    + rewrite IH by lia.
      destruct (Nat.le_gt_cases 100 (length l - i)) as [Hbig|Hsmall].
      * replace (length l - i + 99)
          with (length l - (i + 100) + 99 + 1 * 100) by lia.
        rewrite Nat.div_add by lia. lia.
      * replace (length l - (i + 100) + 99) with 99 by lia.
        change (99 / 100) with 0.
        apply (Nat.div_unique _ 100 1 (length l - i - 1)); lia.
    + replace (length l - i + 99) with 99 by lia. reflexivity.
Qed.

(** X2: [getUserIds] sends exactly ceil(n/100) requests for [n] usernames,
    and no batch it sends is empty or longer than 100. *)
Theorem getUserIds_request_count (up : upstream) (usernames : list string)
    (log : list request) :
  length (getUserIds up usernames log).2 =
    length log + (length usernames + 99) / 100 /\
  length (chunks usernames) = (length usernames + 99) / 100 /\
  Forall (fun c => 1 <= length c <= 100) (chunks usernames).
Proof.
  assert (length (chunks usernames) = (length usernames + 99) / 100) as Hlen.
  { unfold chunks. rewrite length_chunks_from by lia. f_equal. lia. }
  split; [|split; [exact Hlen|]].
  - rewrite Resolver.getUserIds_resolve_chunks, resolve_chunks_log.
    rewrite length_app, length_map, Hlen. reflexivity.
  - apply Forall_lookup. intros k c Hc. unfold chunks in Hc.
    apply lookup_chunks_from in Hc as [-> Hlt]. simpl in Hlt.
    rewrite length_take, length_drop. lia.
Qed.

Lemma last_id_cons (k : string) (w : user) (es : list user) :
  last_id k (w :: es) =
    match last_id k es with
    | Some v => Some v
    | None => if String.eqb k (toLowerCase (name w)) then Some (id w) else None
    end.
Proof.
  unfold last_id. destruct (String.eqb_spec k (toLowerCase (name w))) as [->|Hne].
  - rewrite filter_cons_True by reflexivity. rewrite last_cons.
    destruct (last _); reflexivity.
  - rewrite filter_cons_False by congruence. destruct (last _); reflexivity.
Qed.

Lemma last_id_app (k : string) (es1 es2 : list user) :
  last_id k (es1 ++ es2) =
    match last_id k es2 with Some v => Some v | None => last_id k es1 end.
Proof.
  induction es1 as [|w es1 IH]; simpl.
  - destruct (last_id k es2); reflexivity.
  - rewrite !last_id_cons, IH. destruct (last_id k es2); reflexivity.
Qed.

Lemma get_own_add_users (data : list user) (userMap : obj) (k : string) :
  get_own (add_users userMap data) k =
    if String.eqb k "__proto__" then get_own userMap k
    else match last_id k data with
         | Some v => Some v
         | None => get_own userMap k
         end.
Proof.
  revert userMap. unfold add_users.
  induction data as [|w data IH]; intros userMap; simpl.
  - destruct (String.eqb k "__proto__"); reflexivity.
  - rewrite IH, last_id_cons, get_own_set.
    set (kw := toLowerCase (name w)).
    destruct (String.eqb_spec k "__proto__") as [Hk|Hk].
    + destruct (String.eqb_spec k kw) as [Hkw|Hkw]; simpl; [|reflexivity].
      destruct (String.eqb_spec kw "__proto__"); [reflexivity|congruence].
    + destruct (last_id k data); [reflexivity|].
      destruct (String.eqb_spec k kw) as [Hkw|Hkw]; simpl; [|reflexivity].
      destruct (String.eqb_spec kw "__proto__"); [congruence|reflexivity].
Qed.

Lemma get_own_resolve_chunks (up : upstream) (cs : list (list string))
    (userMap : obj) (log : list request) (k : string) :
  get_own (resolve_chunks up cs userMap log).1 k =
    if String.eqb k "__proto__" then get_own userMap k
    else match last_id k (answered_entries up log cs) with
         | Some v => Some v
         | None => get_own userMap k
         end.
Proof.
  revert userMap log. induction cs as [|c cs IH]; intros userMap log; simpl.
  - destruct (String.eqb k "__proto__"); reflexivity.
  - unfold bind, post_usernames. rewrite IH, last_id_app.
    destruct (String.eqb k "__proto__") eqn:Hk.
    + destruct (usernames_users up log c); [|reflexivity].
      rewrite get_own_add_users, Hk. reflexivity.
    + destruct (last_id k (answered_entries up (log ++ [PostUsernames c]) cs));
        [reflexivity|].
      destruct (usernames_users up log c); [|reflexivity].
      rewrite get_own_add_users, Hk. reflexivity.
Qed.

(** On answers that respect the contract: the number [getUserIds] stores
    under a key is the id of the last entry, over all answered batches in
    order, whose lower-cased name is that key; later entries overwrite
    earlier ones, and nothing is ever stored under [__proto__]. *)
Theorem getUserIds_last_entry_wins (up : upstream) (usernames : list string)
    (log : list request) (k : string) :
  get_own (getUserIds up usernames log).1 k =
    if String.eqb k "__proto__" then None
    else last_id k (answered_entries up log (chunks usernames)).
Proof.
  rewrite Resolver.getUserIds_resolve_chunks, get_own_resolve_chunks. simpl.
  destruct (String.eqb k "__proto__"); [reflexivity|].
  destruct (last_id _ _); reflexivity.
Qed.

Lemma NoDup_keys_add_users (data : list user) (userMap : obj) :
  NoDup (map fst userMap) -> NoDup (map fst (add_users userMap data)).
Proof.
  revert userMap. unfold add_users.
  induction data as [|w data IH]; intros userMap Hnd; simpl; [exact Hnd|].
  apply IH, NoDup_keys_set, Hnd.
Qed.

Lemma NoDup_keys_resolve_chunks (up : upstream) (cs : list (list string))
    (userMap : obj) (log : list request) :
  NoDup (map fst userMap) ->
  NoDup (map fst (resolve_chunks up cs userMap log).1).
Proof.
  revert userMap log. induction cs as [|c cs IH]; intros userMap log Hnd;
    simpl; [exact Hnd|].
  unfold bind, post_usernames. apply IH.
  destruct (usernames_users up log c); [|exact Hnd].
  apply NoDup_keys_add_users, Hnd.
Qed.

Lemma elem_get_own (o : obj) (k : string) (v : Z) :
  NoDup (map fst o) -> (k, v) ∈ o -> get_own o k = Some v.
Proof.
  induction o as [|[k1 v1] o IH]; simpl; intros Hnd Hin; [inversion Hin|].
  apply NoDup_cons in Hnd as [Hfresh Hnd].
  apply elem_of_cons in Hin as [[= <- <-]|Hin].
  - rewrite String.eqb_refl. reflexivity.
  - destruct (String.eqb_spec k k1) as [->|?]; [|auto].
    destruct Hfresh. change (map fst o) with (fst <$> o).
    apply list_elem_of_fmap. exists (k1, v). auto.
Qed.

(** X4: the keys of the object [getUserIds] returns are pairwise distinct,
    lower-case and never [__proto__]; the pairs [Object.entries] lists are
    exactly the own properties a read finds. *)
Theorem getUserIds_keys (up : upstream) (usernames : list string)
    (log : list request) :
  let userMap := (getUserIds up usernames log).1 in
  NoDup (map fst userMap) /\
  Forall (fun k => toLowerCase k = k /\ k <> "__proto__") (map fst userMap) /\
  (forall k v, (k, v) ∈ entries userMap <-> get_own userMap k = Some v).
Proof.
  intros userMap. subst userMap.
  rewrite Resolver.getUserIds_resolve_chunks.
  assert (NoDup (map fst (resolve_chunks up (chunks usernames) [] log).1))
    as Hnd by (apply NoDup_keys_resolve_chunks; constructor).
  split; [exact Hnd|]. split.
  - apply Forall_forall. intros k Hk.
    apply resolve_chunks_keys in Hk as [Hk|[Hp (i & data & w & _ & _ & ->)]].
    + inversion Hk.
    + split; [apply toLowerCase_idempotent|exact Hp].
  - intros k v. split; [apply elem_get_own, Hnd|apply ObjFacts.get_own_elem].
Qed.

End MoreResolver.

(** ** More on the handler *)

Module MoreHandler.
Import Js Net Server Spec Derived Sample ServerFacts MoreJsFacts.

Lemma getGameInfo_nonempty (up : upstream) (i : jsval)
    (cookie : option string) (log : list request) :
  String.eqb (getGameInfo up i cookie log).1 "" = false.
Proof.
  unfold getGameInfo. destruct (truthy i); simpl; [|reflexivity].
  unfold bind, get_place_details, ret.
  destruct (place_details up log i (getHeaders cookie)) as [[|pl rest]|];
    simpl; try reflexivity.
  destruct (String.eqb (placeName pl) "") eqn:Hn; [reflexivity|exact Hn].
Qed.

(** X5: [getGameInfo] never returns the empty string; for a truthy
    identifier it sends exactly one place lookup, for that identifier and
    with the headers of the cookie, and its result is the name of the first
    place of the answer, or ["Unknown Place"] when that name is empty. *)
Theorem getGameInfo_one_lookup (up : upstream) (i : jsval)
    (cookie : option string) (log : list request) :
  String.eqb (getGameInfo up i cookie log).1 "" = false /\
  (truthy i = true ->
   (getGameInfo up i cookie log).2 =
     log ++ [GetPlaceDetails i (getHeaders cookie)] /\
   forall pl rest,
     place_details up log i (getHeaders cookie) = Some (pl :: rest) ->
     (getGameInfo up i cookie log).1 =
       if String.eqb (placeName pl) "" then "Unknown Place" else placeName pl).
Proof.
  split; [apply getGameInfo_nonempty|].
  unfold getGameInfo. intros ->. simpl.
  unfold bind, get_place_details, ret. split; [reflexivity|].
  intros pl rest ->. reflexivity.
Qed.

Lemma filter_all {A : Type} (P : A -> Prop) `{forall x, Decision (P x)}
    (l : list A) :
  Forall P l -> filter P l = l.
Proof.
  induction 1 as [|x l Hx _ IH]; [reflexivity|].
  rewrite filter_cons_True by assumption. congruence.
Qed.

Lemma first_occurrences_NoDup (l : list string) :
  NoDup l -> first_occurrences l = l.
Proof.
  induction 1 as [|x l Hx _ IH]; simpl; [reflexivity|].
  rewrite IH. f_equal. apply filter_all.
  apply Forall_forall. intros y Hy ->. contradiction.
Qed.

(** X6: the list [uniqueUsers] has no duplicates, and each of its elements
    is non-empty and already trimmed; normalising it again changes
    nothing. *)
Theorem uniqueUsers_normal_form (users : list string) :
  NoDup (uniqueUsers users) /\
  Forall (fun u => u <> "" /\ trim u = u) (uniqueUsers users) /\
  uniqueUsers (uniqueUsers users) = uniqueUsers users.
Proof.
  assert (Forall (fun u => u <> "" /\ trim u = u) (uniqueUsers users)) as Hall.
  { apply Forall_forall. intros u [Hne [v [_ ->]]]%elem_uniqueUsers.
    split; [exact Hne|apply trim_idempotent]. }
  split; [apply NoDup_Set_of|]. split; [exact Hall|].
  unfold uniqueUsers at 1.
  assert (map trim (uniqueUsers users) = uniqueUsers users) as ->.
  { induction Hall as [|u l [_ Hu] _ IH]; simpl; [reflexivity|].
    rewrite Hu, IH. reflexivity. }
  rewrite filter_all.
  - rewrite Set_of_first_occurrences.
    apply first_occurrences_NoDup, NoDup_Set_of.
  - eapply Forall_impl; [exact Hall|]. intros u [Hne _]. exact Hne.
Qed.

(** X7: the handler depends on a non-empty input array only through
    [uniqueUsers]: padding, blank entries and repeated names change neither
    the answer nor the requests sent. *)
Theorem api_status_normalises_input (up : upstream) (cookie : option string)
    (users users' : list string) (log : list request) :
  users <> [] -> users' <> [] ->
  uniqueUsers users = uniqueUsers users' ->
  api_status up cookie (Some users) log =
  api_status up cookie (Some users') log.
Proof.
  intros Hne Hne' Heq. unfold api_status.
  destruct users as [|u0 users]; [congruence|].
  destruct users' as [|u0' users']; [congruence|].
  change (length (u0 :: users) =? 0)%nat with false.
  change (length (u0' :: users') =? 0)%nat with false.
  cbv iota. rewrite Heq. reflexivity.
Qed.

Lemma api_status_normalises_input_witness :
  api_status roblox None (Some [" Bob"; ""; "Bob"; "eve "; "Bob  "]) [] =
  api_status roblox None (Some ["Bob"; "eve"]) [].
Proof.
  apply (api_status_normalises_input roblox None
           [" Bob"; ""; "Bob"; "eve "; "Bob  "] ["Bob"; "eve"] []).
  - discriminate.
  - discriminate.
  - reflexivity.
Defined.

(** X8: when the presence answer holds several entries for one user ID,
    [presenceMap] keeps the last of them. *)
Theorem presenceMap_last_entry_wins (userPresences : list presence) (n : Z) :
  presenceMap_of userPresences !! n =
    last (filter (fun p => userId p = n) userPresences).
Proof.
  unfold presenceMap_of.
  assert (forall (m : gmap Z presence),
             fold_left (fun m p => <[userId p := p]> m) userPresences m !! n =
             match last (filter (fun p => userId p = n) userPresences) with
             | Some p => Some p
             | None => m !! n
             end) as Hgen.
  { induction userPresences as [|q ps IH]; intros m; [reflexivity|].
    cbn [fold_left]. rewrite IH.
    destruct (decide (userId q = n)) as [Heq|Hne].
    - rewrite (filter_cons_True (fun p => userId p = n) q ps Heq), last_cons.
      destruct (last _); [reflexivity|].
      rewrite <- Heq. apply lookup_insert_eq.
    - rewrite (filter_cons_False (fun p => userId p = n) q ps Hne).
      destruct (last _); [reflexivity|].
      apply lookup_insert_ne. exact Hne. }
  rewrite Hgen. destruct (last _); [reflexivity|apply lookup_empty].
Qed.

(** X9: the reverse mapping holds, under an ID, the last key in
    [Object.entries] order whose value is that ID. *)
Theorem userIdToUsernameMap_last_key_wins (userMap : obj) (n : Z) :
  userIdToUsernameMap_of userMap !! n =
    fst <$> last (filter (fun e => snd e = n) (entries userMap)).
Proof.
  unfold userIdToUsernameMap_of, entries.
  assert (forall (acc : gmap Z string),
             fold_left (fun acc e => <[snd e := fst e]> acc) userMap acc !! n =
             match last (filter (fun e => snd e = n) userMap) with
             | Some e => Some (fst e)
             | None => acc !! n
             end) as Hgen.
  { induction userMap as [|e o IH]; intros acc; [reflexivity|].
    cbn [fold_left]. rewrite IH.
    destruct (decide (snd e = n)) as [Heq|Hne].
    - rewrite (filter_cons_True (fun e => snd e = n) e o Heq), last_cons.
      destruct (last _); [reflexivity|].
      rewrite <- Heq. apply lookup_insert_eq.
    - rewrite (filter_cons_False (fun e => snd e = n) e o Hne).
      destruct (last _); [reflexivity|].
      apply lookup_insert_ne. exact Hne. }
  rewrite Hgen. destruct (last _); [reflexivity|apply lookup_empty].
Qed.

End MoreHandler.

(** ** Requests and records of a whole run *)

Module RunFacts.
Import Js Net Server Spec Derived Sample ServerFacts MoreJsFacts.

Lemma classify_requests (up : upstream) (cookie : option string)
    (pr : option presence) (log : list request) :
  (classify up cookie pr log).2 = log \/
  exists p, pr = Some p /\ userPresenceType p = 3%Z /\
            truthy (or_else (universeId p) (placeId p)) = true /\
            (classify up cookie pr log).2 =
              log ++ [GetPlaceDetails (or_else (universeId p) (placeId p))
                        (getHeaders cookie)].
Proof.
  destruct pr as [p|]; simpl; [|left; reflexivity].
  destruct (Z.eqb_spec (userPresenceType p) 3) as [Hty|_].
  - unfold bind, getGameInfo.
    destruct (truthy (or_else (universeId p) (placeId p))) eqn:Ht; simpl.
    + right. exists p. auto.
    + left. reflexivity.
  - left. destruct (userPresenceType p =? 2)%Z; [reflexivity|].
    destruct (userPresenceType p =? 1)%Z; reflexivity.
Qed.

Lemma user_result_requests_aux (up : upstream) (cookie : option string)
    (userMap : obj) (presenceMap : gmap Z presence) (names : gmap Z string)
    (u : string) (log : list request) :
  (user_result up cookie userMap presenceMap names u log).2 = log \/
  exists n p,
    Js.get userMap (toLowerCase u) = Own n /\ n <> 0%Z /\
    presenceMap !! n = Some p /\ userPresenceType p = 3%Z /\
    truthy (or_else (universeId p) (placeId p)) = true /\
    (user_result up cookie userMap presenceMap names u log).2 =
      log ++ [GetPlaceDetails (or_else (universeId p) (placeId p))
                (getHeaders cookie)].
Proof.
  unfold user_result.
  destruct (Js.get userMap (toLowerCase u)) as [n| |] eqn:Hget; simpl.
  - destruct (Z.eqb_spec n 0) as [->|Hn]; simpl; [left; reflexivity|].
    unfold bind.
    destruct (classify_requests up cookie (presenceMap !! n) log)
      as [Hsame|(p & Hp & Hty & Ht & Hlog)].
    + left. split_classify. simpl in *. exact Hsame.
    + right. exists n, p. split; [reflexivity|].
      repeat (split; [assumption|]).
      split_classify. simpl in *. exact Hlog.
  - left. reflexivity.
  - left. reflexivity.
Qed.

(** X10: for one username the loop body sends at most one request, and
    only a place lookup: it sends one exactly when the username resolves to
    a non-zero ID whose presence entry has type 3 and a truthy
    [universeId] or [placeId]. *)
Theorem user_result_requests (up : upstream) (cookie : option string)
    (userMap : obj) (presenceMap : gmap Z presence) (names : gmap Z string)
    (u : string) (log : list request) :
  exists reqs,
    (user_result up cookie userMap presenceMap names u log).2 = log ++ reqs /\
    length reqs <= 1 /\
    Forall (is_place_lookup (getHeaders cookie)) reqs /\
    (reqs <> [] <->
     exists n p,
       Js.get userMap (toLowerCase u) = Own n /\ n <> 0%Z /\
       presenceMap !! n = Some p /\ userPresenceType p = 3%Z /\
       truthy (or_else (universeId p) (placeId p)) = true).
Proof.
  destruct (user_result_requests_aux up cookie userMap presenceMap names u log)
    as [Hsame|(n & p & Hget & Hn & Hp & Hty & Ht & Hlog)].
  - exists []. rewrite app_nil_r. split; [exact Hsame|].
    split; [simpl; lia|]. split; [constructor|].
    split; [congruence|].
    intros (n & p & Hget & Hn & Hp & Hty & Ht). exfalso.
    rewrite (Classification.user_result_resolved _ _ _ _ _ _ _ _ Hget Hn),
      Hp in Hsame.
    unfold classify in Hsame. rewrite Hty in Hsame. simpl in Hsame.
    unfold bind, getGameInfo in Hsame. rewrite Ht in Hsame. simpl in Hsame.
    apply (f_equal (@length request)) in Hsame.
    unfold bind, get_place_details, ret in Hsame. simpl in Hsame.
    rewrite length_app in Hsame. simpl in Hsame. lia.
  - eexists. split; [exact Hlog|]. split; [simpl; lia|].
    split; [repeat constructor; eexists; eauto|].
    split; [eauto 10|discriminate].
Qed.

Lemma for_each_log {A B : Type} (P : request -> Prop) (body : A -> M B)
    (l : list A) (log : list request) :
  (forall x lg, exists reqs,
      (body x lg).2 = lg ++ reqs /\ length reqs <= 1 /\ Forall P reqs) ->
  exists reqs,
    (for_each body l log).2 = log ++ reqs /\
    length reqs <= length l /\ Forall P reqs.
Proof.
  intros Hbody. revert log. induction l as [|x l IH]; intros log; simpl.
  - exists []. rewrite app_nil_r.
    split; [reflexivity|]. split; [apply Nat.le_refl|constructor].
  - unfold bind. destruct (Hbody x log) as (r1 & H1 & Hl1 & HP1).
    destruct (body x log) as [y log1]. simpl in H1. subst log1.
    destruct (IH (log ++ r1)) as (r2 & H2 & Hl2 & HP2).
    destruct (for_each body l (log ++ r1)) as [ys log2]. simpl in *.
    exists (r1 ++ r2). rewrite H2, <- app_assoc.
    split; [reflexivity|]. split; [rewrite length_app; lia|].
    apply Forall_app. auto.
Qed.

Lemma for_each_pure {A B : Type} (f : A -> B) (body : A -> M B)
    (l : list A) (log : list request) :
  (forall x lg, x ∈ l -> body x lg = (f x, lg)) ->
  for_each body l log = (map f l, log).
Proof.
  induction l as [|x l IH]; intros Hbody; simpl; [reflexivity|].
  unfold bind. rewrite (Hbody x log) by left.
  rewrite IH by (intros; apply Hbody; right; assumption). reflexivity.
Qed.

Lemma log_after_lookup_eq (up : upstream) (users : list string)
    (log : list request) :
  log_after_lookup up users log =
    log ++ map PostUsernames (chunks (uniqueUsers users)).
Proof.
  unfold log_after_lookup.
  rewrite Resolver.getUserIds_resolve_chunks. apply resolve_chunks_log.
Qed.

Lemma api_status_log_shape (up : upstream) (cookie : option string)
    (users : list string) (log : list request) :
  users <> [] ->
  exists places,
    (api_status up cookie (Some users) log).2 =
      log ++ map PostUsernames (chunks (uniqueUsers users))
          ++ presence_requests (userMap_of up users log) (getHeaders cookie)
          ++ places /\
    Forall (is_place_lookup (getHeaders cookie)) places /\
    length places <= length (uniqueUsers users).
Proof.
  intros Hne.
  destruct (api_status_run up cookie users log Hne) as (log2 & -> & Hlog2).
  simpl.
  destruct (for_each_log (is_place_lookup (getHeaders cookie))
              (user_result_of up cookie users log) (uniqueUsers users) log2)
    as (places & Hlog & Hlen & Hall).
  { intros u lg. unfold user_result_of.
    destruct (user_result_requests_aux up cookie (userMap_of up users log)
                (presenceMap_of (userPresences_of up cookie users log))
                (userIdToUsernameMap_of (userMap_of up users log)) u lg)
      as [Hsame|(n & p & _ & _ & _ & _ & Ht & Hreq)].
    - exists []. rewrite app_nil_r.
      split; [exact Hsame|]. split; [simpl; lia|constructor].
    - eexists. split; [exact Hreq|]. split; [simpl; lia|].
      repeat constructor. eexists. eauto. }
  exists places. split; [|split; assumption].
  rewrite Hlog, Hlog2, log_after_lookup_eq. unfold presence_requests.
  destruct (0 <? length (Js.values (userMap_of up users log)))%nat;
    rewrite <- ?app_assoc; reflexivity.
Qed.

(** X11: one run of the handler on a non-empty array sends, in this order:
    the username lookups, one per batch; then the presence request, if
    [userMap] holds at least one ID; then place lookups only, at most one
    per deduplicated username, each with the headers of the cookie. *)
Theorem api_status_request_order (up : upstream) (cookie : option string)
    (users : list string) (log : list request) :
  users <> [] ->
  exists places,
    (api_status up cookie (Some users) log).2 =
      log ++ map PostUsernames (chunks (uniqueUsers users))
          ++ presence_requests (userMap_of up users log) (getHeaders cookie)
          ++ places /\
    Forall (is_place_lookup (getHeaders cookie)) places /\
    length places <= length (uniqueUsers users).
Proof. apply api_status_log_shape. Qed.

Lemma api_status_request_order_witness :
  exists places,
    (api_status roblox None (Some ["Bob"; "alice"; "Dave"; "eve"]) []).2 =
      [] ++ map PostUsernames
              (chunks (uniqueUsers ["Bob"; "alice"; "Dave"; "eve"]))
         ++ presence_requests
              (userMap_of roblox ["Bob"; "alice"; "Dave"; "eve"] [])
              (getHeaders None)
         ++ places /\
    Forall (is_place_lookup (getHeaders None)) places /\
    length places <= length (uniqueUsers ["Bob"; "alice"; "Dave"; "eve"]).
Proof.
  apply (api_status_request_order roblox None
           ["Bob"; "alice"; "Dave"; "eve"] []).
  discriminate.
Defined.

(** X12: when the username lookups leave [userMap] empty and no username
    lower-cases to a name found on [Object.prototype], the handler sends
    nothing but the username lookups and answers with one error record per
    deduplicated username, carrying that username as trimmed. *)
Theorem nothing_resolved_only_lookups (up : upstream) (cookie : option string)
    (users : list string) (log : list request) :
  users <> [] ->
  userMap_of up users log = [] ->
  Forall (fun u => inherited (toLowerCase u) = false) (uniqueUsers users) ->
  api_status up cookie (Some users) log =
    (Ok (map (fun u => NotFound u "Pengguna tidak ditemukan di Roblox.")
             (uniqueUsers users)),
     log ++ map PostUsernames (chunks (uniqueUsers users))).
Proof.
  intros Hne Hempty Hplain.
  destruct (api_status_run up cookie users log Hne) as (log2 & -> & Hlog2).
  rewrite Hempty in Hlog2. simpl in Hlog2. subst log2.
  rewrite (for_each_pure
             (fun u => NotFound u "Pengguna tidak ditemukan di Roblox.")).
  - simpl. rewrite log_after_lookup_eq. reflexivity.
  - intros u lg Hu. unfold user_result_of. rewrite Hempty.
    apply Handler.unresolved_username_not_found; [reflexivity|].
    rewrite Forall_forall in Hplain. apply Hplain, Hu.
Qed.

Lemma nothing_resolved_only_lookups_witness :
  api_status roblox_lookup_only (Some "token") (Some [" eve"; "mallory"; "eve"]) [] =
    (Ok (map (fun u => NotFound u "Pengguna tidak ditemukan di Roblox.")
             (uniqueUsers [" eve"; "mallory"; "eve"])),
     [] ++ map PostUsernames (chunks (uniqueUsers [" eve"; "mallory"; "eve"]))).
Proof.
  apply (nothing_resolved_only_lookups roblox_lookup_only (Some "token")
           [" eve"; "mallory"; "eve"] []).
  - discriminate.
  - reflexivity.
  - repeat constructor.
Defined.

(** X13: for a resolved user whose presence entry has type 0, 1 or 2 the
    loop body sends no request; the record has status ["Offline"],
    ["Online"] or ["In Game"] and map name ["Offline"], ["Online di
    Website"] or ["In Studio"] respectively, and carries the entry's
    [placeId], [universeId] and [lastLocation]. *)
Theorem presence_types_without_lookup (up : upstream)
    (cookie : option string) (userMap : obj) (presenceMap : gmap Z presence)
    (names : gmap Z string) (u : string) (n : Z) (p : presence)
    (log : list request) :
  Js.get userMap (toLowerCase u) = Own n -> n <> 0%Z ->
  presenceMap !! n = Some p ->
  (0 <= userPresenceType p <= 2)%Z ->
  exists status mapName,
    user_result up cookie userMap presenceMap names u log =
      (Status (display_name names (Own n) u) (Own n) status
              (placeId p) (universeId p) mapName (lastLocation p), log) /\
    (userPresenceType p = 0%Z -> status = "Offline" /\ mapName = "Offline") /\
    (userPresenceType p = 1%Z ->
     status = "Online" /\ mapName = "Online di Website") /\
    (userPresenceType p = 2%Z -> status = "In Game" /\ mapName = "In Studio").
Proof.
  intros Hget Hn Hp Hty.
  rewrite (Classification.user_result_resolved _ _ _ _ _ _ _ _ Hget Hn), Hp.
  unfold classify.
  destruct (Z.eqb_spec (userPresenceType p) 3) as [?|_]; [lia|].
  destruct (Z.eqb_spec (userPresenceType p) 2) as [H2|H2].
  { eexists _, _. split; [reflexivity|]. repeat split; lia. }
  destruct (Z.eqb_spec (userPresenceType p) 1) as [H1|H1].
  { eexists _, _. split; [reflexivity|]. repeat split; lia. }
  eexists _, _. split; [reflexivity|]. repeat split; lia.
Qed.

Lemma presence_types_without_lookup_witness :
  let p := mkPresence 7 2 JNull JNull (JStr "Studio") in
  exists status mapName,
    user_result roblox None [("gina", 7%Z)] (presenceMap_of [p]) ∅ "Gina" [] =
      (Status (display_name ∅ (Own 7) "Gina") (Own 7) status
              (placeId p) (universeId p) mapName (lastLocation p), []) /\
    (userPresenceType p = 0%Z -> status = "Offline" /\ mapName = "Offline") /\
    (userPresenceType p = 1%Z ->
     status = "Online" /\ mapName = "Online di Website") /\
    (userPresenceType p = 2%Z -> status = "In Game" /\ mapName = "In Studio").
Proof.
  apply (presence_types_without_lookup roblox None [("gina", 7%Z)]
           (presenceMap_of [mkPresence 7 2 JNull JNull (JStr "Studio")]) ∅
           "Gina" 7%Z (mkPresence 7 2 JNull JNull (JStr "Studio")) []).
  - reflexivity.
  - discriminate.
  - vm_compute. reflexivity.
  - vm_compute. split; discriminate.
Defined.

Lemma classify_labels (up : upstream) (cookie : option string)
    (pr : option presence) (log : list request) :
  let '(status, mapName, _, _, _) := (classify up cookie pr log).1 in
  status ∈ status_labels /\
  mapName <> "" /\
  (status = "Offline" -> mapName = "Offline") /\
  (status = "Online" -> mapName = "Online di Website").
Proof.
  unfold status_labels.
  destruct pr as [p|]; simpl.
  2: { rewrite !elem_of_cons. repeat split; auto; discriminate. }
  destruct (userPresenceType p =? 3)%Z.
  - unfold bind.
    pose proof (MoreHandler.getGameInfo_nonempty up
                  (or_else (universeId p) (placeId p)) cookie log) as Hne.
    destruct (getGameInfo up (or_else (universeId p) (placeId p)) cookie log)
      as [mn lg]. simpl in *.
    rewrite !elem_of_cons. split; [auto|]. split; [|split; discriminate].
    destruct (truthy (placeId p)); simpl; [|discriminate].
    intros ->. discriminate.
  - destruct (userPresenceType p =? 2)%Z; [|destruct (userPresenceType p =? 1)%Z];
      simpl; rewrite !elem_of_cons; repeat split; auto; discriminate.
Qed.

(** X14: every record of a successful answer is well formed: an error
    record carries one of the deduplicated usernames and the fixed message;
    a status record has one of the three status labels and a map name that
    is never empty, ["Offline"] going with ["Offline"] and ["Online"] with
    ["Online di Website"]. *)
Theorem results_well_formed (up : upstream) (cookie : option string)
    (users : list string) (log : list request) (results : list result) :
  (api_status up cookie (Some users) log).1 = Ok results ->
  Forall (fun r =>
            match r with
            | NotFound u e =>
                u ∈ uniqueUsers users /\
                e = "Pengguna tidak ditemukan di Roblox."
            | Status _ uid status _ _ mapName _ =>
                present uid = true /\
                status ∈ status_labels /\
                mapName <> "" /\
                (status = "Offline" -> mapName = "Offline") /\
                (status = "Online" -> mapName = "Online di Website")
            end) results.
Proof.
  intros Hok. apply Forall_lookup. intros i r Hr.
  destruct users as [|u0 users]; [discriminate|].
  destruct (api_status_results up cookie (u0 :: users) log ltac:(discriminate))
    as (rs & Hrs & Hall).
  rewrite Hrs in Hok. injection Hok as ->.
  destruct (Forall2_lookup_r _ _ _ _ _ Hall Hr) as (u & Hu & lg & ->).
  unfold user_result_of, user_result.
  destruct (present (Js.get _ (toLowerCase u))) eqn:Hpres; simpl.
  - unfold bind.
    match goal with
    | |- context [classify ?a ?b ?c ?d] =>
        pose proof (classify_labels a b c d) as Hlab
    end.
    split_classify. simpl in *. split; [exact Hpres|exact Hlab].
  - split; [|reflexivity]. eapply list_elem_of_lookup_2, Hu.
Qed.

Lemma results_well_formed_witness :
  Forall (fun r =>
            match r with
            | NotFound u e =>
                u ∈ uniqueUsers ["Bob"; "eve"] /\
                e = "Pengguna tidak ditemukan di Roblox."
            | Status _ uid status _ _ mapName _ =>
                present uid = true /\
                status ∈ status_labels /\
                mapName <> "" /\
                (status = "Offline" -> mapName = "Offline") /\
                (status = "Online" -> mapName = "Online di Website")
            end)
         [ Status "bob" (Own 1) "In Game" (JNum 10) (JNum 77) "Fish It"
                  (JStr "Fish It");
           NotFound "eve" "Pengguna tidak ditemukan di Roblox." ].
Proof.
  apply (results_well_formed roblox None ["Bob"; "eve"] []).
  vm_compute. reflexivity.
Defined.

Lemma looked_up_app (l1 l2 : list request) :
  looked_up (l1 ++ l2) = looked_up l1 ++ looked_up l2.
Proof. unfold looked_up. rewrite map_app, concat_app. reflexivity. Qed.

Lemma looked_up_lookups (cs : list (list string)) :
  looked_up (map PostUsernames cs) = concat cs.
Proof.
  unfold looked_up. induction cs as [|c cs IH]; simpl; [reflexivity|].
  rewrite IH. reflexivity.
Qed.

Lemma looked_up_places (h : headers) (places : list request) :
  Forall (is_place_lookup h) places -> looked_up places = [].
Proof.
  unfold looked_up. induction 1 as [|r l [i [_ ->]] _ IH]; simpl;
    [reflexivity|exact IH].
Qed.

(** X19: in one run of the handler every deduplicated username is sent to
    the username service exactly once, in the order of [uniqueUsers]; no
    other request names a username. *)
Theorem every_username_looked_up_once (up : upstream)
    (cookie : option string) (users : list string) (log : list request) :
  users <> [] ->
  looked_up (api_status up cookie (Some users) log).2 =
    looked_up log ++ uniqueUsers users /\
  NoDup (uniqueUsers users).
Proof.
  intros Hne. split; [|apply NoDup_Set_of].
  destruct (api_status_log_shape up cookie users log Hne)
    as (places & -> & Hplaces & _).
  rewrite !looked_up_app, looked_up_lookups, (looked_up_places _ _ Hplaces).
  unfold chunks. rewrite concat_chunks_from by lia.
  unfold presence_requests.
  destruct (0 <? _)%nat; simpl; rewrite ?app_nil_r; reflexivity.
Qed.

Lemma every_username_looked_up_once_witness :
  looked_up (api_status roblox None (Some [" Bob"; "eve"; "Bob"; "alice"]) []).2 =
    looked_up [] ++ uniqueUsers [" Bob"; "eve"; "Bob"; "alice"] /\
  NoDup (uniqueUsers [" Bob"; "eve"; "Bob"; "alice"]).
Proof.
  apply (every_username_looked_up_once roblox None
           [" Bob"; "eve"; "Bob"; "alice"] []).
  discriminate.
Defined.

End RunFacts.

(** ** The earlier variant of the endpoint *)

Module LegacyFacts.
Import Js Legacy.

Lemma getGameInfo_total (up : upstream) (i : jsval) (h : Net.headers)
    (log : list request) :
  exists name,
    getGameInfo up i h log =
      (inr name, if truthy i then log ++ [GetPlaceDetails i h] else log).
Proof.
  unfold getGameInfo. destruct (truthy i); simpl; eexists; reflexivity.
Qed.

(** The turn of one user, by the answers of the username and presence
    services. *)
Lemma user_result_cases (up : upstream) (h : Net.headers) (u : string)
    (log : list request) :
  let log1 := log ++ [PostUsernames [u]] in
  match usernames_users up log [u] with
  | inl message =>
      user_result up h u log = (Failed u (RequestFailed message), log1)
  | inr data =>
      let uid := Net.id <$> head data in
      let log2 := log1 ++ [PostPresence [uid] h] in
      match presence_users up log1 [uid] h with
      | inl message =>
          user_result up h u log = (Failed u (RequestFailed message), log2)
      | inr [] => user_result up h u log = (Failed u UndefinedPresence, log2)
      | inr (p :: _) =>
          exists name,
            getGameInfo up (Net.placeId p) h log2 =
              (inr name,
               if truthy (Net.placeId p)
               then log2 ++ [GetPlaceDetails (Net.placeId p) h] else log2) /\
            user_result up h u log =
              (Status u (status_of (Net.userPresenceType p))
                      (or_else (Net.placeId p) JNull)
                      (if truthy (Net.placeId p) then name
                       else label_of (Net.userPresenceType p))
                      (or_else (Net.lastLocation p) (JStr "FISH IT")),
               if truthy (Net.placeId p)
               then log2 ++ [GetPlaceDetails (Net.placeId p) h] else log2)
      end
  end.
Proof.
  unfold user_result, try_catch, lookup_status, bind, getUserId, getPresence,
    request_of, ret, throw. simpl.
  destruct (usernames_users up log [u]) as [message|data]; [reflexivity|].
  simpl.
  destruct (presence_users up _ _ h) as [message|[|p ps]]; try reflexivity.
  simpl.
  destruct (getGameInfo_total up (Net.placeId p) h
              ((log ++ [PostUsernames [u]]) ++
               [PostPresence [Net.id <$> head data] h])) as [name Hname].
  exists name. split; [exact Hname|].
  destruct (truthy (Net.placeId p)); [rewrite Hname|]; reflexivity.
Qed.

Lemma user_result_username (up : upstream) (h : Net.headers) (u : string)
    (log : list request) :
  result_username (user_result up h u log).1 = u.
Proof.
  pose proof (user_result_cases up h u log) as Hc. simpl in Hc.
  destruct (usernames_users up log [u]) as [?|data]; [rewrite Hc; reflexivity|].
  destruct (presence_users up _ _ h) as [?|[|p ps]];
    try (rewrite Hc; reflexivity).
  destruct Hc as (name & _ & ->). reflexivity.
Qed.

(** Each turn starts with the lookup of its username and sends at most two
    more requests. *)
Lemma user_result_log (up : upstream) (h : Net.headers) (u : string)
    (log : list request) :
  exists rest,
    (user_result up h u log).2 = log ++ PostUsernames [u] :: rest /\
    length rest <= 2.
Proof.
  pose proof (user_result_cases up h u log) as Hc. simpl in Hc.
  destruct (usernames_users up log [u]) as [?|data].
  { exists []. rewrite Hc. simpl. split; [reflexivity|lia]. }
  destruct (presence_users up _ _ h) as [?|[|p ps]].
  - eexists [_]. rewrite Hc. simpl. rewrite <- app_assoc. split; [reflexivity|simpl; lia].
  - eexists [_]. rewrite Hc. simpl. rewrite <- app_assoc. split; [reflexivity|simpl; lia].
  - destruct Hc as (name & _ & ->). simpl.
    destruct (truthy (Net.placeId p)).
    + eexists [_; _]. rewrite <- !app_assoc. split; [reflexivity|simpl; lia].
    + eexists [_]. rewrite <- !app_assoc. split; [reflexivity|simpl; lia].
Qed.

Lemma for_each_usernames (up : upstream) (h : Net.headers) (l : list string)
    (log : list request) :
  map result_username (for_each (user_result up h) l log).1 = l.
Proof.
  revert log. induction l as [|u l IH]; intros log; simpl; [reflexivity|].
  pose proof (user_result_username up h u log) as Hu.
  destruct (user_result up h u log) as [r log1].
  specialize (IH log1). destruct (for_each _ l log1) as [rs log2].
  simpl in *. congruence.
Qed.

Lemma for_each_budget (up : upstream) (h : Net.headers) (l : list string)
    (log : list request) :
  length log + length l <= length (for_each (user_result up h) l log).2
    <= length log + 3 * length l.
Proof.
  revert log. induction l as [|u l IH]; intros log; simpl; [lia|].
  destruct (user_result_log up h u log) as (rest & Hlog & Hlen).
  destruct (user_result up h u log) as [r log1]. simpl in Hlog.
  specialize (IH log1). destruct (for_each _ l log1) as [rs log2].
  simpl in *. subst log1. rewrite length_app in IH. simpl in IH. lia.
Qed.

(** X15: whatever the services answer, the array sent holds nineteen
    records, one per username of the fixed list and in its order, each
    carrying its username unchanged; a run sends between 19 and 57
    requests. *)
Theorem legacy_one_record_per_user (up : upstream) (cookie : option string)
    (log : list request) :
  map result_username (api_status up cookie log).1 = users /\
  length (api_status up cookie log).1 = 19 /\
  length log + 19 <= length (api_status up cookie log).2 <= length log + 57.
Proof.
  unfold api_status.
  pose proof (for_each_usernames up (getHeaders cookie) users log) as Hnames.
  split; [exact Hnames|]. split.
  - rewrite <- (length_map result_username), Hnames. reflexivity.
  - exact (for_each_budget up (getHeaders cookie) users log).
Qed.

(** X16: the record of a user is an error record exactly when the username
    lookup throws, the presence request throws, or the presence answer is
    empty; a failing place lookup never makes one. *)
Theorem legacy_error_record_iff (up : upstream) (h : Net.headers)
    (u : string) (log : list request) :
  (exists e, (user_result up h u log).1 = Failed u e) <->
  (exists message, usernames_users up log [u] = inl message) \/
  (exists data,
     usernames_users up log [u] = inr data /\
     ((exists message,
         presence_users up (log ++ [PostUsernames [u]])
           [Net.id <$> head data] h = inl message) \/
      presence_users up (log ++ [PostUsernames [u]])
        [Net.id <$> head data] h = inr [])).
Proof.
  pose proof (user_result_cases up h u log) as Hc. simpl in Hc.
  destruct (usernames_users up log [u]) as [message|data].
  { rewrite Hc. split; [eauto|]. intros _. simpl. eauto. }
  destruct (presence_users up _ _ h) as [message|[|p ps]] eqn:Hp.
  - rewrite Hc. split; [|simpl; eauto]. intros _. right. exists data.
    split; [reflexivity|]. left. eauto.
  - rewrite Hc. split; [|simpl; eauto]. intros _. right. exists data.
    split; [reflexivity|]. right. exact Hp.
  - destruct Hc as (name & _ & ->). simpl. split.
    + intros [e [=]].
    + intros [[message [=]]|(data' & [= <-] & [[message Hm]|Hm])];
        rewrite Hp in Hm; discriminate.
Qed.

(** X17: a username the lookup does not know (an empty answer) is not
    reported as such: the presence request is still sent, with an
    undefined user ID, and the record is whatever that request leads to. *)
Theorem legacy_unknown_user_still_queried (up : upstream) (h : Net.headers)
    (u : string) (log : list request) :
  usernames_users up log [u] = inr [] ->
  exists rest,
    (user_result up h u log).2 =
      log ++ PostUsernames [u] :: PostPresence [None] h :: rest.
Proof.
  intros Hempty. pose proof (user_result_cases up h u log) as Hc.
  simpl in Hc. rewrite Hempty in Hc. simpl in Hc.
  destruct (presence_users up _ _ h) as [message|[|p ps]].
  - exists []. rewrite Hc. simpl. rewrite <- app_assoc. reflexivity.
  - exists []. rewrite Hc. simpl. rewrite <- app_assoc. reflexivity.
  - destruct Hc as (name & _ & ->). simpl.
    destruct (truthy (Net.placeId p)).
    + eexists [_]. rewrite <- !app_assoc. reflexivity.
    + exists []. rewrite <- !app_assoc. reflexivity.
Qed.

Lemma legacy_unknown_user_still_queried_witness :
  exists rest,
    (user_result sample [] "uubyyror" []).2 =
      [] ++ PostUsernames ["uubyyror"] :: PostPresence [None] [] :: rest.
Proof.
  apply (legacy_unknown_user_still_queried sample [] "uubyyror" []).
  reflexivity.
Defined.

(** X18: when both calls answer, the record of the first presence entry
    has status ["Offline"] for type 0, ["Online"] for type 1 and
    ["In Game"] for every other type; its [placeId] is [null] when the
    entry's is falsy and its [lastLocation] is ["FISH IT"] when the entry's
    is falsy.  With a truthy [placeId] a place lookup is sent whatever the
    type and the map name is its result; without one no lookup is sent and
    the map name follows the type. *)
Theorem legacy_status_record (up : upstream) (h : Net.headers) (u : string)
    (log : list request) (data : list Net.user) (p : Net.presence)
    (ps : list Net.presence) :
  usernames_users up log [u] = inr data ->
  presence_users up (log ++ [PostUsernames [u]]) [Net.id <$> head data] h =
    inr (p :: ps) ->
  let log2 := (log ++ [PostUsernames [u]]) ++
              [PostPresence [Net.id <$> head data] h] in
  exists status mapName log3,
    user_result up h u log =
      (Status u status (or_else (Net.placeId p) JNull) mapName
              (or_else (Net.lastLocation p) (JStr "FISH IT")), log3) /\
    (status = "Offline" <-> Net.userPresenceType p = 0%Z) /\
    (status = "Online" <-> Net.userPresenceType p = 1%Z) /\
    (status = "In Game" <->
     Net.userPresenceType p <> 0%Z /\ Net.userPresenceType p <> 1%Z) /\
    (truthy (Net.placeId p) = true ->
     log3 = log2 ++ [GetPlaceDetails (Net.placeId p) h] /\
     getGameInfo up (Net.placeId p) h log2 = (inr mapName, log3)) /\
    (truthy (Net.placeId p) = false ->
     log3 = log2 /\ mapName = label_of (Net.userPresenceType p)).
Proof.
  intros Hdata Hp log2. subst log2.
  pose proof (user_result_cases up h u log) as Hc. simpl in Hc.
  rewrite Hdata in Hc. rewrite Hp in Hc. destruct Hc as (name & Hname & ->).
  eexists _, _, _. split; [reflexivity|].
  assert (forall ty : Z,
             (status_of ty = "Offline" <-> ty = 0%Z) /\
             (status_of ty = "Online" <-> ty = 1%Z) /\
             (status_of ty = "In Game" <-> ty <> 0%Z /\ ty <> 1%Z)) as Hst.
  { intros ty. unfold status_of.
    destruct (Z.eqb_spec ty 0); [|destruct (Z.eqb_spec ty 1)];
      repeat split; intros; try discriminate; try lia; tauto. }
  destruct (Hst (Net.userPresenceType p)) as (Hoff & Hon & Hin).
  split; [exact Hoff|]. split; [exact Hon|]. split; [exact Hin|].
  split; intros Ht; rewrite Ht in *; auto.
Qed.

Lemma legacy_status_record_witness :
  let p := Net.mkPresence 11 0 (JNum 10) JNull (JStr "") in
  let log2 := ([] ++ [PostUsernames ["Basoka001"]]) ++
              [PostPresence [Net.id <$> head [Net.mkUser "Basoka001" 11]] []] in
  exists status mapName log3,
    user_result sample [] "Basoka001" [] =
      (Status "Basoka001" status (or_else (Net.placeId p) JNull) mapName
              (or_else (Net.lastLocation p) (JStr "FISH IT")), log3) /\
    (status = "Offline" <-> Net.userPresenceType p = 0%Z) /\
    (status = "Online" <-> Net.userPresenceType p = 1%Z) /\
    (status = "In Game" <->
     Net.userPresenceType p <> 0%Z /\ Net.userPresenceType p <> 1%Z) /\
    (truthy (Net.placeId p) = true ->
     log3 = log2 ++ [GetPlaceDetails (Net.placeId p) []] /\
     getGameInfo sample (Net.placeId p) [] log2 = (inr mapName, log3)) /\
    (truthy (Net.placeId p) = false ->
     log3 = log2 /\ mapName = label_of (Net.userPresenceType p)).
Proof.
  apply (legacy_status_record sample [] "Basoka001" []
           [Net.mkUser "Basoka001" 11]
           (Net.mkPresence 11 0 (JNum 10) JNull (JStr "")) []).
  - reflexivity.
  - reflexivity.
Defined.

End LegacyFacts.

(** ** server.js on answers that break the upstream contract *)

Module RawFacts.
Import Js Net Server Spec Derived Sample ServerFacts.

Lemma add_users_processed (data : list Raw.entry) (userMap : obj) :
  Raw.add_users userMap data = add_users userMap (Raw.processed data).
Proof.
  revert userMap. induction data as [|[u|] data IH]; intros userMap; simpl;
    [reflexivity| |reflexivity].
  rewrite IH. reflexivity.
Qed.

Lemma resolve_chunks_view (up : Raw.upstream) (cs : list (list string))
    (userMap : obj) (log : list request) :
  Raw.resolve_chunks up cs userMap log =
  resolve_chunks (Raw.contract_view up) cs userMap log.
Proof.
  revert userMap log. induction cs as [|c cs IH]; intros userMap log; simpl;
    [reflexivity|].
  unfold bind, Raw.post_usernames, post_usernames. simpl.
  rewrite IH. destruct (Raw.usernames_users up log c) as [data|]; simpl;
    [|reflexivity].
  rewrite add_users_processed. reflexivity.
Qed.

(** [getUserIds] on raw answers is [getUserIds] on their processed
    entries. *)
Lemma getUserIds_view (up : Raw.upstream) (usernames : list string)
    (log : list request) :
  Raw.getUserIds up usernames log =
  getUserIds (Raw.contract_view up) usernames log.
Proof.
  unfold Raw.getUserIds, getUserIds.
  destruct (length usernames =? 0)%nat; [reflexivity|].
  apply resolve_chunks_view.
Qed.

Lemma batch_reply_view (up : Raw.upstream) (log : list request)
    (cs : list (list string)) (i : nat) (data : list user) :
  batch_reply (Raw.contract_view up) log cs i = Some data ->
  data = Raw.processed_reply up log cs i.
Proof.
  unfold batch_reply, Raw.processed_reply.
  destruct (cs !! i) as [c|]; [|discriminate]. simpl.
  destruct (Raw.usernames_users up _ c); simpl; congruence.
Qed.

Lemma processed_reply_elem (up : Raw.upstream) (log : list request)
    (cs : list (list string)) (i : nat) (w : user) :
  w ∈ Raw.processed_reply up log cs i ->
  exists data, batch_reply (Raw.contract_view up) log cs i = Some data /\
               w ∈ data.
Proof.
  unfold batch_reply, Raw.processed_reply.
  destruct (cs !! i) as [c|]; [|intros H; inversion H]. simpl.
  destruct (Raw.usernames_users up _ c); simpl; [eauto|intros H; inversion H].
Qed.

Lemma answered_entries_view (up : Raw.upstream) (cs : list (list string))
    (log : list request) :
  answered_entries (Raw.contract_view up) log cs =
  Raw.processed_entries up log cs.
Proof.
  revert log. induction cs as [|c cs IH]; intros log; simpl; [reflexivity|].
  rewrite IH. destruct (Raw.usernames_users up log c); reflexivity.
Qed.

Lemma presenceMap_from_objects (ps : list (option presence))
    (m : gmap Z presence) :
  Raw.well_formed (Raw.Presences ps) = true ->
  Raw.presenceMap_from ps m =
    Some (fold_left (fun m p => <[userId p := p]> m) (Raw.objects ps) m).
Proof.
  revert m. induction ps as [|[p|] ps IH]; intros m; simpl;
    [reflexivity| |discriminate].
  intros Hwf. rewrite (IH _ Hwf). reflexivity.
Qed.

Lemma presenceMap_from_malformed (ps : list (option presence))
    (m : gmap Z presence) :
  Raw.well_formed (Raw.Presences ps) = false ->
  Raw.presenceMap_from ps m = None.
Proof.
  revert m. induction ps as [|[p|] ps IH]; intros m; simpl;
    [discriminate| |reflexivity].
  intros Hwf. apply IH, Hwf.
Qed.

(** The handler ends in one of two ways.  When the presence request is
    sent and its 2xx body is not an array of objects, the handler throws
    after that request and sends nothing.  In every other case it sends
    what the handler of [Server] sends on the contract view of the
    services, after the same requests. *)
Lemma api_status_outcome (up : Raw.upstream) (cookie : option string)
    (users : list string) (log : list request) :
  users <> [] ->
  Raw.api_status up cookie (Some users) log =
    match Raw.presence_reply up cookie users log with
    | Some body =>
        if Raw.presence_requested up users log && negb (Raw.well_formed body)
        then (Raw.Rejected,
              (Raw.getUserIds up (uniqueUsers users) log).2 ++
              [PostPresence
                 (Js.values (Raw.getUserIds up (uniqueUsers users) log).1)
                 (getHeaders cookie)])
        else (Raw.Sent
                (api_status (Raw.contract_view up) cookie (Some users) log).1,
              (api_status (Raw.contract_view up) cookie (Some users) log).2)
    | None =>
        (Raw.Sent (api_status (Raw.contract_view up) cookie (Some users) log).1,
         (api_status (Raw.contract_view up) cookie (Some users) log).2)
    end.
Proof.
  intros Hne.
  destruct (api_status_run (Raw.contract_view up) cookie users log Hne)
    as (log2 & -> & Hlog2).
  cbn [fst snd].
  unfold user_result_of, userPresences_of, presence_reply, log_after_lookup,
    userMap_of in *.
  unfold Raw.presence_reply, Raw.presence_requested.
  unfold Raw.api_status.
  destruct users as [|u0 users]; [congruence|].
  change (length (u0 :: users) =? 0)%nat with false. cbv iota.
  set (us := u0 :: users) in *.
  unfold bind at 1.
  rewrite !getUserIds_view.
  destruct (getUserIds (Raw.contract_view up) (uniqueUsers us) log)
    as [userMap log1]. cbn [fst snd] in *.
  destruct (0 <? length (Js.values userMap))%nat; cbn [andb].
  - unfold bind, Raw.post_presence, ret. cbn [fst snd]. subst log2.
    change (user_result (Raw.place_service up))
      with (user_result (Raw.contract_view up)).
    change (presence_users (Raw.contract_view up) log1 (Js.values userMap)
              (getHeaders cookie))
      with (match Raw.presence_users up log1 (Js.values userMap)
                    (getHeaders cookie) with
            | Some (Raw.Presences userPresences) =>
                Some (Raw.objects userPresences)
            | Some Raw.NoPresenceArray => Some []
            | None => None
            end).
    destruct (Raw.presence_users up log1 (Js.values userMap) (getHeaders cookie))
      as [[|ps]|]; cbn [Raw.well_formed negb].
    + reflexivity.
    + destruct (forallb _ ps) eqn:Hwf; cbn [negb].
      * rewrite (presenceMap_from_objects ps ∅ Hwf).
        change (fold_left _ (Raw.objects ps) ∅)
          with (presenceMap_of (Raw.objects ps)).
        destruct (for_each _ _ _) as [rs lg]. reflexivity.
      * rewrite (presenceMap_from_malformed ps ∅ Hwf). reflexivity.
    + cbn [Raw.presenceMap_from].
      change (presenceMap_of []) with (∅ : gmap Z presence).
      destruct (for_each _ _ _) as [rs lg]. reflexivity.
  - unfold bind, ret. cbn [fst snd Raw.presenceMap_from]. subst log2.
    change (user_result (Raw.place_service up))
      with (user_result (Raw.contract_view up)).
    change (presenceMap_of []) with (∅ : gmap Z presence).
    destruct (Raw.presence_users up log1 (Js.values userMap) (getHeaders cookie))
      as [body|]; destruct (for_each _ _ _) as [rs lg]; reflexivity.
Qed.

Lemma getUserIds_of_contract (up : Net.upstream) (usernames : list string)
    (log : list request) :
  Raw.getUserIds (Raw.of_contract up) usernames log =
  getUserIds up usernames log.
Proof.
  assert (forall (data : list user) (m : obj),
             Raw.add_users m (map Raw.Entry data) = add_users m data) as Hadd.
  { intros data m. rewrite add_users_processed. f_equal.
    induction data as [|w data IH]; simpl; congruence. }
  assert (forall cs m lg,
             Raw.resolve_chunks (Raw.of_contract up) cs m lg =
             resolve_chunks up cs m lg) as Hres.
  { induction cs as [|c cs IH]; intros m lg; simpl; [reflexivity|].
    unfold bind, Raw.post_usernames, post_usernames. simpl.
    rewrite IH. destruct (usernames_users up lg c); simpl;
      [rewrite Hadd|]; reflexivity. }
  unfold Raw.getUserIds, getUserIds.
  destruct (length usernames =? 0)%nat; [reflexivity|apply Hres].
Qed.

(** On services that respect the contract the two models agree: the
    handler always sends a response, the one of [Server.api_status], after
    the same requests. *)
Lemma api_status_agrees (up : Net.upstream) (cookie : option string)
    (users : option (list string)) (log : list request) :
  Raw.api_status (Raw.of_contract up) cookie users log =
    (Raw.Sent (api_status up cookie users log).1,
     (api_status up cookie users log).2).
Proof.
  assert (forall (ps : list presence) (m : gmap Z presence),
             Raw.presenceMap_from (map Some ps) m =
             Some (fold_left (fun m p => <[userId p := p]> m) ps m)) as Hpm.
  { induction ps as [|q ps IH]; intros m; simpl; [reflexivity|apply IH]. }
  destruct users as [users|]; [|reflexivity].
  destruct users as [|u0 users]; [reflexivity|].
  destruct (api_status_run up cookie (u0 :: users) log ltac:(discriminate))
    as (log2 & -> & Hlog2).
  cbn [fst snd].
  unfold user_result_of, userPresences_of, presence_reply, log_after_lookup,
    userMap_of in *.
  unfold Raw.api_status.
  change (length (u0 :: users) =? 0)%nat with false. cbv iota.
  set (us := u0 :: users) in *.
  unfold bind at 1.
  rewrite getUserIds_of_contract.
  destruct (getUserIds up (uniqueUsers us) log) as [userMap log1].
  cbn [fst snd] in *.
  change (user_result (Raw.place_service (Raw.of_contract up)))
    with (user_result up).
  destruct (0 <? length (Js.values userMap))%nat.
  - unfold bind, Raw.post_presence, ret. cbn [fst snd]. subst log2.
    change (Raw.presence_users (Raw.of_contract up) log1 (Js.values userMap)
              (getHeaders cookie))
      with ((fun ps => Raw.Presences (map Some ps)) <$>
            presence_users up log1 (Js.values userMap) (getHeaders cookie)).
    destruct (presence_users up log1 (Js.values userMap) (getHeaders cookie))
      as [ps|]; simpl.
    + rewrite Hpm.
      change (fold_left _ ps ∅) with (presenceMap_of ps).
      destruct (for_each _ _ _) as [rs lg]. reflexivity.
    + change (presenceMap_of []) with (∅ : gmap Z presence).
      destruct (for_each _ _ _) as [rs lg]. reflexivity.
  - unfold bind, ret. cbn [fst snd Raw.presenceMap_from]. subst log2.
    change (presenceMap_of []) with (∅ : gmap Z presence).
    destruct (for_each _ _ _) as [rs lg]. reflexivity.
Qed.

(** A run sends nothing exactly when the presence request was sent and
    its 2xx body is not an array of objects. *)
Lemma api_status_rejected_iff (up : Raw.upstream) (cookie : option string)
    (users : list string) (log : list request) :
  users <> [] ->
  (Raw.api_status up cookie (Some users) log).1 = Raw.Rejected <->
  Raw.presence_requested up users log = true /\
  exists body, Raw.presence_reply up cookie users log = Some body /\
               Raw.well_formed body = false.
Proof.
  intros Hne. rewrite (api_status_outcome up cookie users log Hne).
  destruct (Raw.presence_reply up cookie users log) as [body|]; simpl.
  - destruct (Raw.presence_requested up users log); simpl.
    + destruct (Raw.well_formed body) eqn:Hwf; simpl.
      * split; [discriminate|]. intros [_ (b & [= <-] & Hb)].
        rewrite Hb in Hwf. discriminate.
      * split; [eauto|reflexivity].
    + split; [discriminate|intros [? _]; discriminate].
  - split; [discriminate|intros [_ (b & [=] & _)]].
Qed.

(** Whenever a response is sent, a user whose ID was resolved gets status
    ["Offline"] and map name ["Offline"] if the presence call throws or
    its array holds no object for that ID. *)
Lemma offline_when_response_sent (up : Raw.upstream) (cookie : option string)
    (users : list string) (log : list request) (results : list result)
    (i : nat) (u : string) (n : Z) :
  (Raw.api_status up cookie (Some users) log).1 = Raw.Sent (Ok results) ->
  uniqueUsers users !! i = Some u ->
  Js.get (Raw.getUserIds up (uniqueUsers users) log).1 (toLowerCase u) = Own n ->
  n <> 0%Z ->
  Raw.presence_reply up cookie users log = None \/
  (exists ps, Raw.presence_reply up cookie users log = Some (Raw.Presences ps) /\
              forall p, Some p ∈ ps -> userId p <> n) ->
  exists d,
    results !! i =
      Some (Status d (Own n) "Offline" JNull JNull "Offline" (JStr "Offline")).
Proof.
  intros Hsent Hu Hget Hn Hnone.
  assert (users <> []) as Hne by (intros ->; discriminate).
  assert ((api_status (Raw.contract_view up) cookie (Some users) log).1
          = Ok results) as Hok.
  { rewrite (api_status_outcome up cookie users log Hne) in Hsent.
    destruct (Raw.presence_reply up cookie users log) as [body|];
      [destruct (_ && _)|]; cbn [fst] in Hsent;
      first [discriminate | injection Hsent as Hsent; exact Hsent]. }
  apply (Classification.no_presence_means_offline (Raw.contract_view up)
           cookie users log results i u n Hok Hu).
  - unfold userMap_of. rewrite <- getUserIds_view. exact Hget.
  - exact Hn.
  - unfold presence_reply, userPresences_of, presence_reply, log_after_lookup,
      userMap_of.
    unfold Raw.presence_reply in Hnone. rewrite !getUserIds_view in Hnone.
    simpl.
    destruct Hnone as [->|(ps & -> & Hps)]; [left; reflexivity|].
    right. intros p Hp. destruct (0 <? _)%nat; [|inversion Hp].
    apply Hps. unfold Raw.objects in Hp.
    apply list_elem_of_omap in Hp as (o & Ho & Heq). simpl in Heq.
    subst o. exact Ho.
Qed.

(** C5 at the failing input: Bob's ID is resolved and the presence service
    answers with status 200 and a body that has no [userPresences] array,
    so no presence record exists for him; instead of giving him an
    ["Offline"] record the handler throws at the [forEach] after the
    [try], and nothing is sent. *)
Theorem presence_body_without_array_rejects :
  Js.get (Raw.getUserIds Raw.presence_without_array (uniqueUsers ["Bob"]) []).1
         (toLowerCase "Bob") = Own 1 /\
  Raw.presence_reply Raw.presence_without_array None ["Bob"] [] =
    Some Raw.NoPresenceArray /\
  Raw.api_status Raw.presence_without_array None (Some ["Bob"]) [] =
    (Raw.Rejected, [PostUsernames ["Bob"]; PostPresence [1%Z] []]).
Proof. vm_compute. repeat split. Qed.

(** C3, as amended: the usernames are cut into consecutive batches of at
    most 100; one bulk lookup is sent per batch, in order, whatever the
    answers (250 usernames give three, of sizes 100, 100 and 50).
    Processing an answer stops at its first malformed entry, and a call
    that throws has no processed entry.  Every entry of the resulting
    mapping was written for a processed entry, under its lower-cased name,
    and every processed entry whose lower-cased name is not [__proto__] is
    a key of the mapping; nothing is stored under [__proto__].  A username
    is absent from the mapping unless a processed entry carries its
    lower-cased name: so are the usernames of a failed batch, unless
    another batch, or the start of their own answer, names them. *)
Theorem getUserIds_processed_batches (up : Raw.upstream)
    (usernames : list string) (log : list request) :
  let cs := chunks usernames in
  let userMap := (Raw.getUserIds up usernames log).1 in
  concat cs = usernames /\
  (forall k c, cs !! k = Some c ->
     c = take 100 (drop (k * 100) usernames) /\ k * 100 < length usernames) /\
  (Raw.getUserIds up usernames log).2 = log ++ map PostUsernames cs /\
  (length usernames = 250 -> map (@length string) cs = [100; 100; 50]) /\
  (forall i c data, cs !! i = Some c ->
     Raw.usernames_users up (log ++ map PostUsernames (take i cs)) c = data ->
     Raw.processed_reply up log cs i =
       match data with Some d => Raw.processed d | None => [] end) /\
  (forall k v, get_own userMap k = Some v ->
     exists i w, w ∈ Raw.processed_reply up log cs i /\
                 k = toLowerCase (name w) /\ v = id w) /\
  (forall i w, w ∈ Raw.processed_reply up log cs i ->
     toLowerCase (name w) <> "__proto__" ->
     is_Some (get_own userMap (toLowerCase (name w)))) /\
  get_own userMap "__proto__" = None /\
  (forall u,
     (forall i w, w ∈ Raw.processed_reply up log cs i ->
        toLowerCase (name w) <> toLowerCase u) ->
     get_own userMap (toLowerCase u) = None).
Proof.
  intros cs userMap. subst cs userMap. rewrite getUserIds_view.
  destruct (Resolver.getUserIds_batches (Raw.contract_view up) usernames log)
    as (Hcat & Hcut & Hlog & Hsizes & Horigin & Hmerged & _).
  assert (forall k v,
             get_own (getUserIds (Raw.contract_view up) usernames log).1 k
               = Some v ->
             exists i w,
               w ∈ Raw.processed_reply up log (chunks usernames) i /\
               k = toLowerCase (name w) /\ v = id w) as Horigin'.
  { intros k v Hk.
    destruct (Horigin k v Hk) as (i & data & w & Hr & Hw & ? & ?).
    exists i, w. rewrite <- (batch_reply_view up log _ i data Hr). auto. }
  split; [exact Hcat|]. split; [exact Hcut|]. split; [exact Hlog|].
  split; [exact Hsizes|]. split; [|split; [exact Horigin'|split; [|split]]].
  - intros i c data Hc <-. unfold Raw.processed_reply. rewrite Hc.
    reflexivity.
  - intros i w Hw Hp.
    destruct (processed_reply_elem up log _ i w Hw) as (data & Hr & Hin).
    exact (Hmerged i data w Hr Hin Hp).
  - rewrite Resolver.getUserIds_resolve_chunks,
      MoreResolver.get_own_resolve_chunks. reflexivity.
  - intros u Hother.
    destruct (get_own _ (toLowerCase u)) as [v|] eqn:Hv; [|reflexivity].
    destruct (Horigin' _ _ Hv) as (i & w & Hw & Hk & _).
    destruct (Hother i w Hw). symmetry. exact Hk.
Qed.

(** The answer to the only batch is malformed after [Bob]: [bob] is
    mapped, [carol], named after the malformed entry, is not. *)
Lemma getUserIds_processed_batches_witness :
  Raw.processed_reply Raw.half_malformed [] (chunks ["Bob"; "Carol"]) 0 =
    [mkUser "Bob" 1] /\
  is_Some (get_own (Raw.getUserIds Raw.half_malformed ["Bob"; "Carol"] []).1
             (toLowerCase "Bob")) /\
  get_own (Raw.getUserIds Raw.half_malformed ["Bob"; "Carol"] []).1
          (toLowerCase "Carol") = None.
Proof.
  destruct (getUserIds_processed_batches Raw.half_malformed ["Bob"; "Carol"] [])
    as (_ & _ & _ & _ & Hreply & _ & Hmerged & _ & Habsent).
  split; [|split].
  - apply (Hreply 0%nat ["Bob"; "Carol"]
             (Some [Raw.Entry (mkUser "Bob" 1); Raw.Malformed;
                    Raw.Entry (mkUser "Carol" 3)])); reflexivity.
  - apply (Hmerged 0%nat (mkUser "Bob" 1)).
    + vm_compute. left.
    + discriminate.
  - apply (Habsent "Carol").
    intros [|i] w Hw; vm_compute in Hw.
    + apply list_elem_of_singleton in Hw as ->. discriminate.
    + inversion Hw.
Defined.

(** X3: the number [getUserIds] stores under a key is the id of the last
    processed entry, over all batches in order, whose lower-cased name is
    that key: of each answer the entries before its first malformed one
    count, a call that throws contributes none, later entries overwrite
    earlier ones, and nothing is ever stored under [__proto__]. *)
Theorem getUserIds_last_processed_entry_wins (up : Raw.upstream)
    (usernames : list string) (log : list request) (k : string) :
  get_own (Raw.getUserIds up usernames log).1 k =
    if String.eqb k "__proto__" then None
    else last_id k (Raw.processed_entries up log (chunks usernames)).
Proof.
  rewrite getUserIds_view, Resolver.getUserIds_resolve_chunks,
    MoreResolver.get_own_resolve_chunks, answered_entries_view. simpl.
  destruct (String.eqb k "__proto__"); [reflexivity|].
  destruct (last_id _ _); reflexivity.
Qed.

End RawFacts.
